(** * Blizzard session (lib/blizzard/session.js): a shallow embedding

    The session object of [session.js] is modelled as a record; its
    methods are computations in a small state / exception / trace monad.
    [emit] of EventEmitter2 is synchronous, so emitting an event is
    modelled as logging the event and then running the listener the
    constructor has bound to it; an [error] event that nothing listens
    to is thrown by the emitter.  User code reached from the session
    (request callbacks, exposed methods) is opaque: a call to it is a
    logged effect.  JavaScript numbers that the session manipulates are
    integers far below 2^53, so they are modelled in [Z]. *)

From Stdlib Require Import ZArith List String Lia.
From Stdlib.Strings Require Import Byte.
From stdpp Require Import base gmap strings list.

Local Open Scope Z_scope.

(** ** Bytes and big-endian words (Buffer.writeUInt8 / writeUInt32BE,
       binary's word8 / word32be) *)

Definition byte_of_Z (z : Z) : byte :=
  default x00 (Byte.of_N (Z.to_N (z mod 256))).

Definition Z_of_byte (b : byte) : Z := Z.of_N (Byte.to_N b).

(** The four bytes that [writeUInt32BE] stores, most significant first. *)
Definition be32 (v : Z) : list byte :=
  [ byte_of_Z (Z.land (Z.shiftr v 24) 255);
    byte_of_Z (Z.land (Z.shiftr v 16) 255);
    byte_of_Z (Z.land (Z.shiftr v 8) 255);
    byte_of_Z (Z.land v 255) ].

(** binary's big-endian decoder: [acc * 256 + byte], left to right. *)
Definition word_be (bs : list byte) : Z :=
  fold_left (fun acc b => acc * 256 + Z_of_byte b) bs 0.

(** ** JavaScript values seen by the session *)

#[local] Set Warnings "-register-all".

Inductive value :=
| VUndefined
| VNull
| VBool (b : bool)
| VNum (n : Z)
| VStr (s : string)
| VArr (items : list value)
| VObj (fields : list (string * value))
| VBuffer (bs : list byte)
| VError (msg : string).

(** ToBoolean, as used by [if (x)] and [!x]. *)
Definition truthy (v : value) : bool :=
  match v with
  | VUndefined | VNull => false
  | VBool b => b
  | VNum n => negb (n =? 0)
  | VStr s => negb (String.eqb s EmptyString)
  | VArr _ | VObj _ | VBuffer _ | VError _ => true
  end.

Fixpoint assoc (k : string) (fields : list (string * value)) : value :=
  match fields with
  | [] => VUndefined
  | (k', v) :: rest => if String.eqb k k' then v else assoc k rest
  end.

(** [Unhandled error] is the exception by which the emitter reports an
    [error] event that has no listener. *)
Inductive exn :=
| AssertionError (msg : string)
| TypeError (msg : string)
| Error (msg : string)
| Unhandled (error : value).

Inductive outcome (A : Type) :=
| Ok (a : A)
| Throw (e : exn).
Arguments Ok {A} a.
Arguments Throw {A} e.

(** Property read [v.k] for the names the session reads ([method],
    [params], [error], [result], [length]).  Reading a property of
    [null] or [undefined] throws; an object's fields are its own
    properties, with distinct keys. *)
Definition get_prop (v : value) (k : string) : outcome value :=
  match v with
  | VUndefined | VNull => Throw (TypeError "Cannot read property")
  | VObj fields => Ok (assoc k fields)
  | VArr items =>
      Ok (if String.eqb k "length" then VNum (Z.of_nat (length items))
          else VUndefined)
  | VStr s =>
      Ok (if String.eqb k "length" then VNum (Z.of_nat (String.length s))
          else VUndefined)
  | VBuffer bs =>
      Ok (if String.eqb k "length" then VNum (Z.of_nat (length bs))
          else VUndefined)
  | VError msg => Ok (if String.eqb k "message" then VStr msg else VUndefined)
  | VBool _ | VNum _ => Ok VUndefined
  end.

(** ** Constants *)

Definition MAGIC : Z := 89.
Definition TYPE_HANDSHAKE : Z := 0.
Definition TYPE_JSON : Z := 1.
Definition TYPE_BUFFER_RESPONSE : Z := 3.
Definition MAX_ID : Z := 2 ^ 32 - 1.
Definition ERROR_USER : Z := -32000.
Definition ERROR_PARSE : Z := -32700.
Definition ERROR_INVALID : Z := -32600.
Definition ERROR_METHOD : Z := -32601.
Definition ERROR_INTERNAL : Z := -32603.

(** ** Session state *)

(** Opaque handles for user functions: a completion passed to [request],
    a handler registered with [expose]. *)
Definition callback := nat.
Definition handler := nat.

(** Where the tap chain of [setupBinaryParser] is waiting; [Stuck] when
    an exception has left the chain inside a tap, after which it reads
    no more. *)
Inductive parser_state :=
| AtMagic
| AtHeader
| AtData (type id len : Z)
| Stuck.

(** [error_listener] tells whether the host has attached a listener for
    the session's [error] event; the constructor attaches none. *)
Record session := mkSession {
  instigator : bool;
  sequence : Z;
  requestCallbacks : gmap Z callback;
  streams : gmap Z (list (list byte));
  methods : gmap string handler;
  socket_writable : bool;
  parser : parser_state;
  pending : list byte;
  error_listener : bool
}.

Definition with_sequence (v : Z) (s : session) : session :=
  mkSession (instigator s) v (requestCallbacks s) (streams s) (methods s)
            (socket_writable s) (parser s) (pending s) (error_listener s).

Definition with_requestCallbacks (t : gmap Z callback) (s : session) : session :=
  mkSession (instigator s) (sequence s) t (streams s) (methods s)
            (socket_writable s) (parser s) (pending s) (error_listener s).

Definition with_streams (t : gmap Z (list (list byte))) (s : session) : session :=
  mkSession (instigator s) (sequence s) (requestCallbacks s) t (methods s)
            (socket_writable s) (parser s) (pending s) (error_listener s).

Definition with_methods (t : gmap string handler) (s : session) : session :=
  mkSession (instigator s) (sequence s) (requestCallbacks s) (streams s) t
            (socket_writable s) (parser s) (pending s) (error_listener s).

Definition with_parser (p : parser_state) (buf : list byte) (s : session) : session :=
  mkSession (instigator s) (sequence s) (requestCallbacks s) (streams s)
            (methods s) (socket_writable s) p buf (error_listener s).

(** ** Events and effects

    [CallRequestCallback id cb error result] is the call
    [requestCallback(error, result)] of the completion [cb] found under
    [id]; [CallMethod h params id] is the call of an exposed method with
    the [onComplete] closure for [id]. *)

Inductive event :=
| EvIncomingJSON (id : Z) (jsonString : string)
| EvBuffer (id : Z) (buffer : list byte)
| EvBufferComplete (id : Z)
| EvMessage (id : Z) (message : value)
| EvFail (id : Z) (code : Z) (error : value)
| EvReady
| EvError (error : value).

Inductive effect :=
| Emit (e : event)
| SocketWrite (packet : list byte)
| CallRequestCallback (id : Z) (cb : callback) (error result : value)
| CallMethod (h : handler) (params : value) (id : Z).

(** ** The monad: state, exceptions, and a trace of effects *)

Record run (A : Type) := mkRun {
  res : outcome A;
  final : session;
  trace : list effect
}.
Arguments mkRun {A} res final trace.
Arguments res {A} r.
Arguments final {A} r.
Arguments trace {A} r.

Definition M (A : Type) : Type := session -> run A.

Definition ret {A} (a : A) : M A := fun s => mkRun (Ok a) s [].

Definition throw {A} (e : exn) : M A := fun s => mkRun (Throw e) s [].

Definition bind {A B} (m : M A) (k : A -> M B) : M B := fun s =>
  let r := m s in
  match res r with
  | Ok a =>
      let r' := k a (final r) in
      mkRun (res r') (final r') (trace r ++ trace r')
  | Throw e => mkRun (Throw e) (final r) (trace r)
  end.

Notation "x <- m ;; k" := (bind m (fun x => k))
  (at level 100, m at next level, right associativity).
Notation "m ;;; k" := (bind m (fun _ => k))
  (at level 100, right associativity).

Definition get_session : M session := fun s => mkRun (Ok s) s [].
Definition modify (f : session -> session) : M unit :=
  fun s => mkRun (Ok tt) (f s) [].
Definition tell (e : effect) : M unit := fun s => mkRun (Ok tt) s [e].
Definition lift {A} (o : outcome A) : M A := fun s => mkRun o s [].

Definition assert (c : bool) (msg : string) : M unit :=
  if c then ret tt else throw (AssertionError msg).

(** ** The [sequence] property (session.js 22-35) and the id allocator *)

Definition sequence_setter (newSequence : Z) (s : session) : session :=
  let newSequence := if MAX_ID <? newSequence then 0 else newSequence in
  with_sequence newSequence s.

Definition assign_sequence (v : Z) : M unit := modify (sequence_setter v).

Definition nextSequence : M Z :=
  s <- get_session ;;
  (if instigator s
   then assign_sequence (sequence s + 2)
   else assign_sequence (sequence s + 1)) ;;;
  s' <- get_session ;;
  ret (sequence s').

(** [updateSequence(vars)]: [vars.id] is the number read by word32be. *)
Definition updateSequence (id : Z) : M unit :=
  if id =? 0 then ret tt
  else
    s <- get_session ;;
    if sequence s <? id then assign_sequence (id + 1) else ret tt.

(** ** Runs of the id allocator *)

(** The ids returned by [n] successive calls of [nextSequence]. *)
Fixpoint allocate (n : nat) : M (list Z) :=
  match n with
  | O => ret []
  | S k =>
      id <- nextSequence ;;
      ids <- allocate k ;;
      ret (id :: ids)
  end.

(** The writers of the [sequence] property. *)
Inductive seq_op :=
| OpNext
| OpUpdate (id : Z)
| OpAssign (v : Z).

Definition apply_op (op : seq_op) : M unit :=
  match op with
  | OpNext => nextSequence ;;; ret tt
  | OpUpdate id => updateSequence id
  | OpAssign v => assign_sequence v
  end.

Fixpoint apply_ops (ops : list seq_op) : M unit :=
  match ops with
  | [] => ret tt
  | op :: rest => apply_op op ;;; apply_ops rest
  end.

(** The step of [nextSequence], and the state each writer leaves. *)
Definition step_of (s : session) : Z := if instigator s then 2 else 1.

Definition op_state (op : seq_op) (s : session) : session :=
  match op with
  | OpNext => sequence_setter (sequence s + step_of s) s
  | OpUpdate id =>
      if id =? 0 then s
      else if sequence s <? id then sequence_setter (id + 1) s else s
  | OpAssign v => sequence_setter v s
  end.

Definition assigns_nonneg (op : seq_op) : Prop :=
  match op with
  | OpAssign v => 0 <= v
  | _ => True
  end.

Definition in_range (s : session) : Prop := 0 <= sequence s <= MAX_ID.

(** ** Runs of the session on incoming events *)

(** What reaches a session once its requests are registered: bytes from
    the peer, exposed methods calling the [onComplete] they were given,
    and any event emitted on the session from outside. *)
Inductive input :=
| InSocketData (chunk : list byte)
| InDone (id : Z) (error reply_ : value)
| InEmit (e : event).

(** An exception thrown by a listener ends that event only. *)
Definition attempt {A} (m : M A) : M unit := fun s =>
  let r := m s in mkRun (Ok tt) (final r) (trace r).

(** How many times a completion found under [id] was called. *)
Definition is_call_at (id : Z) (e : effect) : bool :=
  match e with
  | CallRequestCallback id' _ _ _ => id' =? id
  | _ => false
  end.

Definition calls_at (id : Z) (t : list effect) : nat :=
  length (filter (fun e => is_call_at id e = true) t).

Definition is_message (e : effect) : bool :=
  match e with
  | Emit (EvMessage _ _) => true
  | _ => false
  end.

Definition messages_in (t : list effect) : nat :=
  length (filter (fun e => is_message e = true) t).

(** The session once the entry under [id] is freed. *)
Definition consume (id : Z) (s : session) : session :=
  with_requestCallbacks (delete id (requestCallbacks s)) s.

(** At most one call per pending entry, and a call consumes the entry. *)
Definition budget (s : session) (id : Z) : nat :=
  match requestCallbacks s !! id with
  | Some _ => 1%nat
  | None => 0%nat
  end.

Definition once {A} (m : M A) : Prop :=
  forall s id,
    (calls_at id (trace (m s)) + budget (final (m s)) id <= budget s id)%nat.

(** The failure by which the reader reports a byte that is not the
    magic byte where a frame should start, and the runs in which no such
    byte is met. *)
Definition is_stray (e : effect) : bool :=
  match e with
  | Emit (EvFail id code (VStr msg)) =>
      (id =? 0) && (code =? ERROR_INVALID)
      && String.eqb msg "Unexpected value for magic byte."
  | _ => false
  end.

Definition no_stray (t : list effect) : bool :=
  forallb (fun e => negb (is_stray e)) t.

(** The packet of [xferRaw]: ten header bytes, then the payload. *)
Definition frame (type id : Z) (payload : list byte) : list byte :=
  [byte_of_Z MAGIC; byte_of_Z type] ++ be32 id
    ++ be32 (Z.of_nat (length payload)) ++ payload.

(** ** The session's methods

    The platform functions the file calls form an interface:
    [JSON.parse] (with [None] for a SyntaxError), [JSON.stringify], the
    UTF-8 conversions of [Buffer], and ToString (property keys and
    string concatenation).

    The method table is an object of the host, and [methods[name]] is a
    property read: a name that is not among the table's own properties
    is looked up on the table's prototype.  [inherited] tells what is
    found there (for a table written as an object literal, the members
    of [Object.prototype]: [toString], [constructor], [hasOwnProperty]
    and the like): a function, or a value that cannot be called. *)

Inductive member :=
| Callable (fn : handler)
| NotCallable.

Class Platform := {
  JSON_parse : string -> option value;
  JSON_stringify : value -> string;
  utf8_encode : string -> list byte;
  utf8_decode : list byte -> string;
  ToString : value -> string;
  inherited : string -> option member
}.

Section Session.

Context `{Platform}.

Definition to_string (v : value) : string :=
  match v with
  | VStr s => s
  | _ => ToString v
  end.

Definition socketReady : M bool :=
  s <- get_session ;; ret (socket_writable s).

(** [writeUInt8] / [writeUInt32BE] check the range of the value. *)
Definition writeUInt8 (v : Z) : M (list byte) :=
  if (0 <=? v) && (v <=? 255) then ret [byte_of_Z v]
  else throw (AssertionError "value is out of bounds").

Definition writeUInt32BE (v : Z) : M (list byte) :=
  if (0 <=? v) && (v <=? MAX_ID) then ret (be32 v)
  else throw (AssertionError "value is out of bounds").

Definition socket_write (packet : list byte) : M unit :=
  tell (SocketWrite packet).

Definition xferRawZeroLength (type id : Z) : M unit :=
  ready <- socketReady ;;
  assert ready "Socket not writable." ;;;
  b0 <- writeUInt8 MAGIC ;;
  b1 <- writeUInt8 type ;;
  b2 <- writeUInt32BE id ;;
  b6 <- writeUInt32BE 0 ;;
  socket_write (b0 ++ b1 ++ b2 ++ b6).

(** [buffer.length] of a Buffer is below 2^32, so storing it is within
    the range of [writeUInt32BE]. *)

Definition xferRaw (type id : Z) (buffer : list byte) : M unit :=
  ready <- socketReady ;;
  assert ready "Socket not writable." ;;;
  b0 <- writeUInt8 MAGIC ;;
  b1 <- writeUInt8 type ;;
  b2 <- writeUInt32BE id ;;
  let b6 := be32 (Z.of_nat (length buffer)) in
  socket_write (b0 ++ b1 ++ b2 ++ b6 ++ buffer).

Definition xferObject (id : Z) (json : value) : M unit :=
  xferRaw TYPE_JSON id (utf8_encode (JSON_stringify json)).

Definition xferBuffer (id : Z) (buffer : list byte) : M unit :=
  xferRaw TYPE_BUFFER_RESPONSE id buffer.

Definition expose (name : string) (fn : handler) : M unit :=
  modify (fun s => with_methods (<[name := fn]> (methods s)) s).

(** [request(method, params, cb)] with the arguments already sorted out:
    [params] is a value (possibly [VUndefined]), [cb] an optional
    completion. *)
Definition request (method : value) (params : value) (cb : option callback)
  : M unit :=
  let rpc :=
    if truthy params
    then VObj [("method"%string, method); ("params"%string, params)]
    else VObj [("method"%string, method)] in
  id <- match cb with
        | Some f =>
            id <- nextSequence ;;
            modify (fun s =>
              with_requestCallbacks (<[id := f]> (requestCallbacks s)) s) ;;;
            ret id
        | None => ret 0
        end ;;
  xferObject id rpc.

Definition reply (id : Z) (message : value) : M unit :=
  if id =? 0 then throw (Error "id required for reply")
  else
    match message with
    | VBuffer bs =>
        xferBuffer id bs ;;;
        xferRawZeroLength TYPE_BUFFER_RESPONSE id
    | _ => xferObject id (VObj [("result"%string, message)])
    end.

(** *** The failure funnel *)

(** [this.emit("error", error)]: no listener of the session is bound to
    [error]; when the host has attached none either, the emitter throws. *)
Definition emit_error (error : value) : M unit :=
  tell (Emit (EvError error)) ;;;
  s <- get_session ;;
  if error_listener s then ret tt else throw (Unhandled error).

Definition onFailure (id code : Z) (error : value) : M unit :=
  if id =? 0 then
    if code =? ERROR_INTERNAL then emit_error error
    else ret tt
  else
    xferObject id
      (VObj [("error"%string,
              VObj [("code"%string, VNum code); ("message"%string, error)])]).

Definition emit_fail (id code : Z) (error : value) : M unit :=
  tell (Emit (EvFail id code error)) ;;;
  onFailure id code error.

(** *** The request table *)

Definition callRequestCallback (id : Z) (error result : value) : M unit :=
  assert (negb (id =? 0)) "assert(id)" ;;;
  s <- get_session ;;
  let requestCallback := requestCallbacks s !! id in
  modify (fun s => with_requestCallbacks (delete id (requestCallbacks s)) s) ;;;
  match requestCallback with
  | Some cb => tell (CallRequestCallback id cb error result)
  | None =>
      if negb (truthy error)
      then emit_fail id ERROR_INTERNAL
             (VStr "Could not find callback for this ID.")
      else ret tt
  end.

(** *** The dispatcher *)

(** The closure [onComplete] that [onMessage] hands to a method. *)
Definition onComplete (id : Z) (error reply_ : value) : M unit :=
  if truthy error then emit_fail id ERROR_USER error
  else if negb (id =? 0) then reply id reply_
  else ret tt.

(** [self.methods[name]]: an exposed method, or what the table
    inherits under that name. *)
Definition lookup_method (s : session) (name : string) : option member :=
  match methods s !! name with
  | Some fn => Some (Callable fn)
  | None => inherited name
  end.

Definition onMessage (id : Z) (message : value) : M unit :=
  m_method <- lift (get_prop message "method") ;;
  if truthy m_method then
    m_params <- lift (get_prop message "params") ;;
    let params := if truthy m_params then m_params else VArr [] in
    s <- get_session ;;
    match lookup_method s (to_string m_method) with
    | Some (Callable h) => tell (CallMethod h params id)
    | Some NotCallable => throw (TypeError "not a function")
    | None =>
        emit_fail id ERROR_METHOD
          (VStr ("Method " ++ to_string m_method ++ " not found."))
    end
  else if negb (id =? 0) then
    m_error <- lift (get_prop message "error") ;;
    if truthy m_error then callRequestCallback id m_error VUndefined
    else
      m_result <- lift (get_prop message "result") ;;
      if truthy m_result then callRequestCallback id VNull m_result
      else
        emit_fail id ERROR_INVALID
          (VStr "Messages with IDs must contain method, error, or result.")
  else
    emit_fail id ERROR_INVALID
      (VStr "Messages without IDs must contain method.").

Definition emit_message (id : Z) (message : value) : M unit :=
  tell (Emit (EvMessage id message)) ;;;
  onMessage id message.

Definition onIncomingJSON (id : Z) (jsonString : string) : M unit :=
  match JSON_parse jsonString with
  | None =>
      emit_fail id ERROR_PARSE
        (VError ("Unable to parse JSON: " ++ JSON_stringify (VStr jsonString)))
  | Some message =>
      len <- lift (get_prop message "length") ;;
      (if truthy len
       then emit_fail id ERROR_INVALID (VStr "Expected an object, got an array.")
       else ret tt) ;;;
      emit_message id message
  end.

Definition emit_incomingJSON (id : Z) (jsonString : string) : M unit :=
  tell (Emit (EvIncomingJSON id jsonString)) ;;;
  onIncomingJSON id jsonString.

(** *** Reassembly of binary replies

    A node-put object is the list of buffers put so far; [buffer()]
    concatenates them. *)

Definition bufferComplete (id : Z) : M unit :=
  s <- get_session ;;
  match streams s !! id with
  | None =>
      emit_fail id ERROR_INVALID
        (VStr "Got final packet for a stream that does not exist.")
  | Some stream =>
      modify (fun s => with_streams (delete id (streams s)) s) ;;;
      emit_message id (VObj [("result"%string, VBuffer (concat stream))])
  end.

Definition bufferPut (id : Z) (buffer : list byte) : M unit :=
  s <- get_session ;;
  (match streams s !! id with
   | None => modify (fun s => with_streams (<[id := []]> (streams s)) s)
   | Some _ => ret tt
   end) ;;;
  modify (fun s =>
    match streams s !! id with
    | Some stream => with_streams (<[id := stream ++ [buffer]]> (streams s)) s
    | None => s
    end).

Definition emit_bufferComplete (id : Z) : M unit :=
  tell (Emit (EvBufferComplete id)) ;;;
  bufferComplete id.

Definition emit_buffer (id : Z) (buffer : list byte) : M unit :=
  tell (Emit (EvBuffer id buffer)) ;;;
  bufferPut id buffer.

(** *** The stream parser (setupBinaryParser)

    The tap chain is a resumable reader over the bytes received so far:
    [pending] holds the unread bytes and [parser] the point where the
    chain waits.  One step performs the reads and taps that the bytes at
    hand allow and reports whether it consumed anything.

    The reader is that of a stream of frames.  For a byte that is not
    the magic byte where a frame should start, the model takes the
    reading of the comment in the source ("Restart the parser."): the
    failure is emitted and reading goes on at the next byte.  What the
    [binary] package does with the reads that are queued behind the
    magic tap, and with the reader that [start()] attaches beside the
    old one, is not part of this file; the properties below that depend
    on the reader's position are stated for runs in which no such byte
    is met ([no_stray]), and the others hold for every sequence of
    events. *)

Definition parseHeader (type id : Z) : M unit :=
  if type =? TYPE_BUFFER_RESPONSE then emit_bufferComplete id
  else if type =? TYPE_HANDSHAKE then tell (Emit EvReady)
  else emit_fail id ERROR_INVALID (VStr "Unexpected 0-length header.").

Definition parsePacket (type id : Z) (data : list byte) : M unit :=
  if type =? TYPE_JSON then emit_incomingJSON id (utf8_decode data)
  else if type =? TYPE_BUFFER_RESPONSE then emit_buffer id data
  else emit_fail id ERROR_INVALID (VStr "Unknown packet type.").

Definition parser_step : M bool :=
  s <- get_session ;;
  let buf := pending s in
  match parser s with
  | AtMagic =>
      match buf with
      | [] => ret false
      | b :: rest =>
          if Z_of_byte b =? MAGIC then
            modify (with_parser AtHeader rest) ;;;
            ret true
          else
            modify (with_parser AtMagic rest) ;;;
            emit_fail 0 ERROR_INVALID
              (VStr "Unexpected value for magic byte.") ;;;
            ret true
      end
  | AtHeader =>
      if (length buf <? 9)%nat then ret false
      else
        let type := word_be (take 1 buf) in
        let id := word_be (take 4 (drop 1 buf)) in
        let len := word_be (take 4 (drop 5 buf)) in
        let rest := drop 9 buf in
        (if len =? 0
         then
           modify (with_parser AtMagic rest) ;;;
           updateSequence id ;;;
           parseHeader type id
         else
           modify (with_parser (AtData type id len) rest) ;;;
           updateSequence id) ;;;
        ret true
  | AtData type id len =>
      if (length buf <? Z.to_nat len)%nat then ret false
      else
        let data := take (Z.to_nat len) buf in
        let rest := drop (Z.to_nat len) buf in
        modify (with_parser AtMagic rest) ;;;
        parsePacket type id data ;;;
        ret true
  | Stuck => ret false
  end.

Fixpoint parser_loop (fuel : nat) : M unit :=
  match fuel with
  | O => ret tt
  | S n =>
      progress <- parser_step ;;
      if progress then parser_loop n else ret tt
  end.

(** The socket's [data] event.  A step that reports progress consumes
    at least one byte or leaves the payload state, so two steps more
    than there are bytes at hand always end with the reader blocked
    ([socket_data_adequate] below). *)
Definition socket_data (chunk : list byte) : M unit :=
  modify (fun s => with_parser (parser s) (pending s ++ chunk) s) ;;;
  s <- get_session ;;
  parser_loop (S (S (length (pending s)))).

(** The constructor: a fresh session; the instigator sends the
    handshake at once.  (BLIZZARD_DEBUG is not set: no listener is
    attached with [onAny].) *)
Definition BlizzardSession (methods : gmap string handler)
    (instigator writable : bool) : run unit :=
  (if instigator then xferRawZeroLength TYPE_HANDSHAKE 0 else ret tt)
    (mkSession instigator 0 ∅ ∅ methods writable AtMagic [] false).

Fixpoint emit_buffers (id : Z) (chunks : list (list byte)) : M unit :=
  match chunks with
  | [] => ret tt
  | chunk :: rest => emit_buffer id chunk ;;; emit_buffers id rest
  end.

(** [emit]: the event is logged and the listener bound to it by the
    constructor runs; [ready] and [error] have listeners outside the
    session only. *)
Definition emit (e : event) : M unit :=
  match e with
  | EvIncomingJSON id jsonString => emit_incomingJSON id jsonString
  | EvBuffer id buffer => emit_buffer id buffer
  | EvBufferComplete id => emit_bufferComplete id
  | EvMessage id message => emit_message id message
  | EvFail id code error => emit_fail id code error
  | EvReady => tell (Emit EvReady)
  | EvError error => emit_error error
  end.

(** The socket's [data] event as the host sees it: an exception thrown
    by a listener leaves the tap chain where it is, and nothing resumes
    it; the reader reads no more. *)
Definition attempt_data (m : M unit) : M unit := fun s =>
  let r := m s in
  match res r with
  | Ok _ => mkRun (Ok tt) (final r) (trace r)
  | Throw _ =>
      mkRun (Ok tt) (with_parser Stuck (pending (final r)) (final r)) (trace r)
  end.

Definition deliver_one (i : input) : M unit :=
  match i with
  | InSocketData chunk => attempt_data (socket_data chunk)
  | InDone id error reply_ => attempt (onComplete id error reply_)
  | InEmit e => attempt (emit e)
  end.

Fixpoint deliver (inputs : list input) : M unit :=
  match inputs with
  | [] => ret tt
  | i :: rest => deliver_one i ;;; deliver rest
  end.

End Session.

(** ** A concrete platform and sessions to run the model on *)

Definition bytes_of_string (s : string) : list byte :=
  map Ascii.byte_of_ascii (list_ascii_of_string s).

Definition string_of_bytes (bs : list byte) : string :=
  string_of_list_ascii (map Ascii.ascii_of_byte bs).

Definition dquote : string := String (Ascii.ascii_of_nat 34) EmptyString.

(** The text of the reply [{result: 3}]. *)
Definition reply_text : string :=
  ("{" ++ dquote ++ "result" ++ dquote ++ ":3}")%string.

(** Enough of JSON for the examples: two array texts and one reply
    parse, an object is printed by its first key. *)
Definition example_parse (s : string) : option value :=
  if String.eqb s "[1]" then Some (VArr [VNum 1])
  else if String.eqb s "[]" then Some (VArr [])
  else if String.eqb s reply_text then Some (VObj [("result"%string, VNum 3)])
  else None.

Definition example_stringify (v : value) : string :=
  match v with
  | VObj ((k, _) :: _) => "{" ++ k ++ "}"
  | _ => "null"
  end.

(** Some of what an object literal inherits: [__proto__] is an object,
    the others are functions. *)
Definition example_inherited (name : string) : option member :=
  if String.eqb name "toString" then Some (Callable 100%nat)
  else if String.eqb name "constructor" then Some (Callable 101%nat)
  else if String.eqb name "hasOwnProperty" then Some (Callable 102%nat)
  else if String.eqb name "valueOf" then Some (Callable 103%nat)
  else if String.eqb name "__proto__" then Some NotCallable
  else None.

#[export] Instance example_platform : Platform := {
  JSON_parse := example_parse;
  JSON_stringify := example_stringify;
  utf8_encode := bytes_of_string;
  utf8_decode := string_of_bytes;
  ToString := fun _ => "[object]"%string;
  inherited := example_inherited
}.

Definition fresh (inst : bool) : session :=
  mkSession inst 0 ∅ ∅ ∅ true AtMagic [] false.

Definition pending_request (id : Z) (cb : callback) : session :=
  mkSession true id {[ id := cb ]} ∅ ∅ true AtMagic [] false.

(** An instigator whose socket is closed, and one whose sequence is at
    the last id before the rollover. *)
Definition unwritable : session :=
  mkSession true 0 ∅ ∅ ∅ false AtMagic [] false.

Definition at_rollover : session :=
  mkSession true MAX_ID ∅ ∅ ∅ true AtMagic [] false.

(** A computation that emits no [message] event and leaves the streams
    as they are. *)
Definition aside {A} (m : M A) : Prop :=
  forall s,
    streams (final (m s)) = streams s /\ messages_in (trace (m s)) = 0%nat.

(** A computation that leaves a component of the session as it is. *)
Definition keeps {A X} (f : session -> X) (m : M A) : Prop :=
  forall s, f (final (m s)) = f s.

(** The reader's own state. *)
Definition reader (s : session) : parser_state * list byte :=
  (parser s, pending s).

(** What the reader still has to do: the unread bytes, and the payload
    state to leave. *)
Definition backlog (s : session) : nat :=
  (length (pending s) +
   match parser s with
   | AtData _ _ _ => 1
   | _ => 0
   end)%nat.


(** ** Whole runs: the facade operations next to the incoming events *)

(** What the host and the peer can do to a session. *)
Inductive action :=
| ActInput (i : input)
| ActRequest (method params : value) (cb : option callback)
| ActReply (id : Z) (message : value)
| ActExpose (name : string) (fn : handler).

Definition perform_one `{Platform} (a : action) : M unit :=
  match a with
  | ActInput i => deliver_one i
  | ActRequest method params cb => attempt (request method params cb)
  | ActReply id message => attempt (reply id message)
  | ActExpose name fn => attempt (expose name fn)
  end.

Fixpoint perform `{Platform} (actions : list action) : M unit :=
  match actions with
  | [] => ret tt
  | a :: rest => perform_one a ;;; perform rest
  end.

(** A computation that keeps the invariant [I] of the session and whose
    every effect satisfies [P]. *)
Definition sound {A} (I : session -> Prop) (P : effect -> Prop) (m : M A)
  : Prop :=
  forall s, I s -> I (final (m s)) /\ Forall P (trace (m s)).

(** A packet on the socket is a frame: header fields in range, then the
    payload. *)
Definition well_framed (e : effect) : Prop :=
  match e with
  | SocketWrite packet =>
      exists type id payload,
        0 <= type <= 255 /\ 0 <= id <= MAX_ID /\
        packet = frame type id payload
  | _ => True
  end.

(** A computation that neither reads nor writes the reader's state: run
    on a session with another reader state, it does the same and leaves
    that reader state. *)
Definition relabel {A} (p : parser_state) (q : list byte) (r : run A) : run A :=
  mkRun (res r) (with_parser p q (final r)) (trace r).

Definition blind {A} (m : M A) : Prop :=
  forall p q s, m (with_parser p q s) = relabel p q (m s).

(** More bytes behind the unread ones. *)
Definition more_bytes (b : list byte) (s : session) : session :=
  with_parser (parser s) (pending s ++ b) s.

(** [buffer] events for several ids, in the order they arrive, and the
    chunks among them that belong to one id. *)
Fixpoint emit_buffer_events `{Platform} (events : list (Z * list byte))
  : M unit :=
  match events with
  | [] => ret tt
  | (id, chunk) :: rest => emit_buffer id chunk ;;; emit_buffer_events rest
  end.

Definition chunks_for (id : Z) (events : list (Z * list byte))
  : list (list byte) :=
  map snd (filter (fun ev => fst ev = id) events).

(** The session after [bufferPut] of one event. *)
Definition put_event (s : session) (ev : Z * list byte) : session :=
  with_streams
    (<[fst ev := default [] (streams s !! fst ev) ++ [snd ev]]> (streams s)) s.

(** ** The HTTP helper (lib/http.js)

    [httpRequest(d)] completes the options object [d] in place and makes
    one client request from it; [responseEventForRequest] collects the
    response body.  The options are a record of JavaScript values, with
    [None] for a missing [headers] object.  The calls on node's client
    are recorded with their arguments: [q_port], [q_host] and [q_secure]
    are those of [http.createClient], [q_method], [q_path] and
    [q_headers] those of [request], and [q_written] is the argument of
    [req.write]; what the client does with them (and whether it accepts
    them) is node's and is not modelled.  The body is a value of the
    type [value], a finite tree, for which [JSON.stringify] returns a
    string. *)

Record options := mkOptions {
  o_host : value;
  o_port : value;
  o_path : value;
  o_secure : value;
  o_method : value;
  o_headers : option (gmap string value);
  o_body : value
}.

Record client_request := mkClientRequest {
  q_port : value;
  q_host : value;
  q_secure : value;
  q_method : value;
  q_path : value;
  q_headers : gmap string value;
  q_written : value
}.

(** ["object" === typeof v]. *)
Definition typeof_object (v : value) : bool :=
  match v with
  | VNull | VArr _ | VObj _ | VBuffer _ | VError _ => true
  | VUndefined | VBool _ | VNum _ | VStr _ => false
  end.

(** [a || b]. *)
Definition or_else (a b : value) : value := if truthy a then a else b.

(** The options as [httpRequest] leaves them (lines 29-40), and the
    calls it makes on the client (lines 42-48). *)
Definition httpRequest `{Platform} (d : options)
  : outcome (options * client_request) :=
  let method := or_else (o_method d) (VStr "GET") in
  let headers := default ∅ (o_headers d) in
  let headers := <["host"%string := o_host d]> headers in
  let body :=
    if typeof_object (o_body d) then VStr (JSON_stringify (o_body d))
    else o_body d in
  let headers :=
    if typeof_object (o_body d)
    then <["content-type"%string := VStr "application/json"]> headers
    else headers in
  match
    (if truthy body
     then match get_prop body "length" with
          | Ok len => Ok (<["content-length"%string := len]> headers)
          | Throw e => Throw e
          end
     else Ok headers)
  with
  | Throw e => Throw e
  | Ok headers =>
      let d' := mkOptions (o_host d) (o_port d) (o_path d) (o_secure d)
                  method (Some headers) body in
      Ok (d',
          mkClientRequest
            (or_else (o_port d)
               (if truthy (o_secure d) then VNum 443 else VNum 80))
            (o_host d) (o_secure d) method (o_path d) headers body)
  end.

(** What the [end] listener of a response hands to the [response]
    event: the chunks joined, parsed when the content type is exactly
    [application/json]; [JSON.parse] may throw there. *)
Inductive response_result :=
| Delivered (data : value)
| ParseThrows.

Definition response_data `{Platform} (headers : gmap string string)
    (chunks : list string) : response_result :=
  let data := fold_left String.append chunks EmptyString in
  match headers !! "content-type"%string with
  | Some ct =>
      if String.eqb ct "application/json"
      then match JSON_parse data with
           | Some v => Delivered v
           | None => ParseThrows
           end
      else Delivered (VStr data)
  | None => Delivered (VStr data)
  end.

(** Options to run [httpRequest] on: a body that is an object, and the
    same options once completed. *)
Definition example_options : options :=
  mkOptions (VStr "example.org") VUndefined (VStr "/") VUndefined VUndefined
    None (VObj [("a"%string, VNum 1)]).

Definition completed_headers : gmap string value :=
  <["content-length"%string := VNum 3]>
    (<["content-type"%string := VStr "application/json"]>
       (<["host"%string := VStr "example.org"]> ∅)).

Definition completed_options : options :=
  mkOptions (VStr "example.org") VUndefined (VStr "/") VUndefined (VStr "GET")
    (Some completed_headers) (VStr "{a}").

Definition example_request : client_request :=
  mkClientRequest (VNum 80) (VStr "example.org") VUndefined (VStr "GET")
    (VStr "/") completed_headers (VStr "{a}").

(** * Properties *)

(** ** The id allocator *)

Lemma nextSequence_run (s : session) :
  nextSequence s =
    mkRun (Ok (sequence (sequence_setter (sequence s + step_of s) s)))
          (sequence_setter (sequence s + step_of s) s) [].
Proof.
  unfold nextSequence, step_of, bind, get_session, assign_sequence, modify, ret.
  destruct s as [[] ? ? ? ? ? ? ?]; reflexivity.
Qed.

Lemma sequence_setter_instigator v s :
  instigator (sequence_setter v s) = instigator s.
Proof. reflexivity. Qed.

Lemma sequence_setter_value v s :
  sequence (sequence_setter v s) = if MAX_ID <? v then 0 else v.
Proof. reflexivity. Qed.

Lemma sequence_setter_in_range v s : 0 <= v -> in_range (sequence_setter v s).
Proof.
  intros Hv. unfold in_range. rewrite sequence_setter_value.
  destruct (Z.ltb_spec MAX_ID v); unfold MAX_ID in *; lia.
Qed.

Lemma allocate_succ n s :
  allocate (S n) s =
    let s' := sequence_setter (sequence s + step_of s) s in
    let r := allocate n s' in
    match res r with
    | Ok ids => mkRun (Ok (sequence s' :: ids)) (final r) (trace r)
    | Throw e => mkRun (Throw e) (final r) (trace r)
    end.
Proof.
  cbn [allocate]. unfold bind at 1. rewrite nextSequence_run. cbn.
  unfold bind. destruct (res (allocate n _)); cbn; try reflexivity.
  by rewrite app_nil_r.
Qed.

(** The allocator never throws and leaves no trace. *)
Lemma allocate_total n : forall s, exists ids, res (allocate n s) = Ok ids.
Proof.
  induction n as [|n IH]; intros s.
  - by exists [].
  - rewrite allocate_succ. cbn zeta.
    destruct (IH (sequence_setter (sequence s + step_of s) s)) as [ids Hids].
    rewrite Hids. eauto.
Qed.

Lemma allocate_instigator_even n : forall s ids,
  instigator s = true ->
  Z.even (sequence s) = true ->
  res (allocate n s) = Ok ids ->
  Forall (fun id => Z.even id = true) ids.
Proof.
  induction n as [|n IH]; intros s ids Hi He.
  - cbn. intros [= <-]. constructor.
  - rewrite allocate_succ. cbn zeta.
    set (s' := sequence_setter (sequence s + step_of s) s).
    assert (He' : Z.even (sequence s') = true).
    { subst s'. rewrite sequence_setter_value. unfold step_of. rewrite Hi.
      destruct (MAX_ID <? _); [reflexivity|].
      rewrite Z.even_add, He. reflexivity. }
    destruct (res (allocate n s')) as [ids'|] eqn:Hr; cbn; [|discriminate].
    intros [= <-]. constructor; [exact He'|].
    apply (IH s'); [exact Hi | exact He' | exact Hr].
Qed.

Lemma allocate_responder_consecutive n : forall s,
  instigator s = false ->
  in_range s ->
  res (allocate n s) =
    Ok (map (fun k => (sequence s + Z.of_nat k) mod 2 ^ 32) (seq 1 n)).
Proof.
  induction n as [|n IH]; intros s Hi Hr.
  - reflexivity.
  - rewrite allocate_succ. cbn zeta.
    set (s' := sequence_setter (sequence s + step_of s) s).
    assert (Hs' : sequence s' = (sequence s + 1) mod 2 ^ 32).
    { subst s'. rewrite sequence_setter_value. unfold step_of. rewrite Hi.
      unfold in_range, MAX_ID in *.
      destruct (Z.ltb_spec (2 ^ 32 - 1) (sequence s + 1)).
      - replace (sequence s + 1) with (2 ^ 32) by lia. reflexivity.
      - rewrite Z.mod_small; lia. }
    assert (Hr' : in_range s').
    { unfold in_range, MAX_ID. rewrite Hs'.
      pose proof (Z.mod_pos_bound (sequence s + 1) (2 ^ 32)). lia. }
    rewrite (IH s' Hi Hr'). cbn [res final trace seq map].
    f_equal. f_equal; [exact Hs'|].
    rewrite <- (seq_shift n 1), map_map. apply map_ext. intros k.
    rewrite Hs', Zplus_mod_idemp_l. f_equal. lia.
Qed.

Lemma apply_op_run op s : apply_op op s = mkRun (Ok tt) (op_state op s) [].
Proof.
  destruct op as [|id|v]; cbn [apply_op op_state].
  - unfold bind. rewrite nextSequence_run. reflexivity.
  - unfold updateSequence. destruct (id =? 0); [reflexivity|].
    unfold bind, get_session. cbn.
    destruct (sequence s <? id); reflexivity.
  - reflexivity.
Qed.

Lemma op_state_in_range op s :
  assigns_nonneg op -> in_range s -> in_range (op_state op s).
Proof.
  intros Hop Hs. destruct op as [|id|v]; cbn [op_state].
  - apply sequence_setter_in_range. unfold in_range, step_of in *.
    destruct (instigator s); lia.
  - destruct (id =? 0); [exact Hs|].
    destruct (Z.ltb_spec (sequence s) id); [|exact Hs].
    apply sequence_setter_in_range. unfold in_range in Hs. lia.
  - apply sequence_setter_in_range. exact Hop.
Qed.

Lemma apply_ops_in_range ops : forall s,
  Forall assigns_nonneg ops -> in_range s ->
  res (apply_ops ops s) = Ok tt /\ in_range (final (apply_ops ops s)).
Proof.
  induction ops as [|op ops IH]; intros s Hops Hs.
  - split; [reflexivity | exact Hs].
  - inversion Hops as [|? ? Hop Hrest]; subst.
    cbn [apply_ops]. unfold bind. rewrite apply_op_run. cbn [res final trace].
    apply IH; [exact Hrest|]. by apply op_state_in_range.
Qed.

Lemma BlizzardSession_sequence methods inst writable :
  sequence (final (BlizzardSession methods inst writable)) = 0.
Proof. destruct inst, writable; reflexivity. Qed.

(** C3 (as amended).  From sequence 0, advanced by [nextSequence] only:
    the instigator's ids are all even; the other side's k-th id is
    k modulo 2^32, so its ids are 1, 2, 3, ... and alternate in parity. *)
Theorem C3_instigator_even_responder_consecutive (s : session) (n : nat) :
  sequence s = 0 ->
  exists ids,
    res (allocate n s) = Ok ids /\
    if instigator s
    then Forall (fun id => Z.even id = true) ids
    else ids = map (fun k => Z.of_nat k mod 2 ^ 32) (seq 1 n).
Proof.
  intros H0. destruct (allocate_total n s) as [ids Hids].
  exists ids. split; [exact Hids|].
  destruct (instigator s) eqn:Hi.
  - eapply allocate_instigator_even; eauto. by rewrite H0.
  - rewrite allocate_responder_consecutive in Hids; [|exact Hi|].
    + rewrite H0 in Hids. by injection Hids as <-.
    + unfold in_range, MAX_ID. rewrite H0. lia.
Qed.

Lemma C3_witness :
  exists ids,
    res (allocate 3 (mkSession false 0 ∅ ∅ ∅ true AtMagic [] false)) = Ok ids /\
    ids = map (fun k => Z.of_nat k mod 2 ^ 32) (seq 1 3).
Proof.
  apply (C3_instigator_even_responder_consecutive
           (mkSession false 0 ∅ ∅ ∅ true AtMagic [] false) 3).
  reflexivity.
Defined.

(** C3 as stated fails: the second id of a non-instigator is 2. *)
Lemma C3_counterexample :
  ~ (forall (s : session) (n : nat) (ids : list Z),
       sequence s = 0 -> instigator s = false ->
       res (allocate n s) = Ok ids ->
       Forall (fun id => Z.odd id = true) ids).
Proof.
  intros H.
  specialize (H (mkSession false 0 ∅ ∅ ∅ true AtMagic [] false) 2%nat [1; 2]
                eq_refl eq_refl eq_refl).
  inversion H as [|? ? _ H2]; subst.
  inversion H2 as [|? ? Hodd _]; subst.
  discriminate Hodd.
Qed.

(** C8.  At sequence 2^32 - 1 the next id is 0 on either side, and a
    non-instigator's following id is 1. *)
Theorem C8_rollover (s : session) :
  sequence s = MAX_ID ->
  res (nextSequence s) = Ok 0 /\
  (instigator s = false ->
   res (nextSequence (final (nextSequence s))) = Ok 1).
Proof.
  intros Hs. rewrite !nextSequence_run. cbn [res final].
  rewrite !sequence_setter_value, Hs.
  assert (Hover : (MAX_ID <? MAX_ID + step_of s) = true).
  { apply Z.ltb_lt. unfold step_of. destruct (instigator s); lia. }
  rewrite Hover. split; [reflexivity|].
  intros Hi. unfold step_of. cbn. rewrite Hi. reflexivity.
Qed.

Lemma C8_witness :
  (res (nextSequence (mkSession false MAX_ID ∅ ∅ ∅ true AtMagic [] false)) = Ok 0 /\
   (instigator (mkSession false MAX_ID ∅ ∅ ∅ true AtMagic [] false) = false ->
    res (nextSequence (final (nextSequence
           (mkSession false MAX_ID ∅ ∅ ∅ true AtMagic [] false)))) = Ok 1)) /\
  (res (nextSequence (mkSession true MAX_ID ∅ ∅ ∅ true AtMagic [] false)) = Ok 0 /\
   (instigator (mkSession true MAX_ID ∅ ∅ ∅ true AtMagic [] false) = false ->
    res (nextSequence (final (nextSequence
           (mkSession true MAX_ID ∅ ∅ ∅ true AtMagic [] false)))) = Ok 1)).
Proof.
  exact (conj
    (C8_rollover (mkSession false MAX_ID ∅ ∅ ∅ true AtMagic [] false) eq_refl)
    (C8_rollover (mkSession true MAX_ID ∅ ∅ ∅ true AtMagic [] false) eq_refl)).
Defined.

(** C10 (as amended).  After construction and after any sequence of
    [nextSequence], [updateSequence] and direct assignments of
    non-negative values, the stored sequence lies in [0, 2^32 - 1]; an
    assignment of a value above 2^32 - 1 stores 0, any other value is
    stored as it is. *)
Theorem C10_sequence_in_range
    (methods : gmap string handler) (inst writable : bool)
    (ops : list seq_op) (v : Z) (s : session) :
  Forall assigns_nonneg ops ->
  in_range (final (apply_ops ops (final (BlizzardSession methods inst writable))))
  /\ sequence (final (assign_sequence v s)) = (if MAX_ID <? v then 0 else v).
Proof.
  intros Hops. split; [|reflexivity].
  apply apply_ops_in_range; [exact Hops|].
  unfold in_range. rewrite BlizzardSession_sequence. unfold MAX_ID. lia.
Qed.

Lemma C10_witness :
  in_range (final (apply_ops [OpNext; OpUpdate 7; OpAssign (2 ^ 32); OpNext]
                     (final (BlizzardSession ∅ true true))))
  /\ sequence (final (assign_sequence (2 ^ 32)
                        (mkSession true 5 ∅ ∅ ∅ true AtMagic [] false))) =
     (if MAX_ID <? 2 ^ 32 then 0 else 2 ^ 32).
Proof.
  assert (Hops : Forall assigns_nonneg
                   [OpNext; OpUpdate 7; OpAssign (2 ^ 32); OpNext]).
  { repeat constructor. simpl. lia. }
  exact (C10_sequence_in_range ∅ true true
           [OpNext; OpUpdate 7; OpAssign (2 ^ 32); OpNext] (2 ^ 32)
           (mkSession true 5 ∅ ∅ ∅ true AtMagic [] false) Hops).
Defined.

(** C10 as stated fails: the setter only guards the upper bound, so a
    direct assignment of -1 stores -1. *)
Lemma C10_counterexample :
  ~ (forall (ops : list seq_op),
       in_range (final (apply_ops ops (final (BlizzardSession ∅ false true))))).
Proof.
  intros H. specialize (H [OpAssign (-1)]).
  unfold in_range in H.
  change (sequence _) with (-1) in H. lia.
Qed.

(** ** The frame codec *)

Lemma Z_of_byte_of_Z z : Z_of_byte (byte_of_Z z) = z mod 256.
Proof.
  unfold Z_of_byte, byte_of_Z.
  pose proof (Z.mod_pos_bound z 256 ltac:(lia)) as Hb.
  destruct (Byte.of_N (Z.to_N (z mod 256))) as [b|] eqn:Hof.
  - apply Byte.to_of_N in Hof. cbn. rewrite Hof. lia.
  - apply Byte.of_N_None_iff in Hof. lia.
Qed.

Lemma Z_of_byte_range b : 0 <= Z_of_byte b < 256.
Proof.
  unfold Z_of_byte. pose proof (Byte.to_N_bounded b). lia.
Qed.

Lemma word_be_be32 v : 0 <= v <= MAX_ID -> word_be (be32 v) = v.
Proof.
  unfold MAX_ID. intros Hv. unfold word_be, be32. cbn [fold_left].
  rewrite !Z_of_byte_of_Z.
  change 255 with (Z.ones 8). rewrite !Z.land_ones, !Z.shiftr_div_pow2 by lia.
  change (2 ^ 8) with 256. rewrite !Z.mod_mod by lia.
  change (2 ^ 24) with 16777216. change (2 ^ 16) with 65536.
  change (2 ^ 32) with 4294967296 in Hv.
  Z.to_euclidean_division_equations. lia.
Qed.

Lemma word_be_byte v : 0 <= v <= 255 -> word_be [byte_of_Z v] = v.
Proof.
  intros Hv. unfold word_be. cbn [fold_left].
  rewrite Z_of_byte_of_Z, Z.mod_small; lia.
Qed.

Lemma frame_length ty id payload :
  length (frame ty id payload) = (10 + length payload)%nat.
Proof. reflexivity. Qed.

Section SessionProperties.

Context `{Platform}.

Lemma xferRaw_run s ty id payload :
  socket_writable s = true -> 0 <= ty <= 255 -> 0 <= id <= MAX_ID ->
  xferRaw ty id payload s = mkRun (Ok tt) s [SocketWrite (frame ty id payload)].
Proof.
  intros Hw Hty Hid.
  unfold xferRaw, socketReady, bind, get_session, writeUInt8, writeUInt32BE.
  cbn. rewrite Hw. cbn.
  replace ((0 <=? ty) && (ty <=? 255)) with true
    by (symmetry; apply andb_true_intro; split; apply Z.leb_le; lia).
  cbn.
  replace ((0 <=? id) && (id <=? MAX_ID)) with true
    by (symmetry; apply andb_true_intro; split; apply Z.leb_le; lia).
  reflexivity.
Qed.

Lemma xferRaw_closed s ty id payload :
  socket_writable s = false ->
  xferRaw ty id payload s =
    mkRun (Throw (AssertionError "Socket not writable.")) s [].
Proof.
  intros Hw. unfold xferRaw, socketReady, bind, get_session.
  cbn. rewrite Hw. reflexivity.
Qed.

Lemma xferObject_run s id json :
  socket_writable s = true -> 0 <= id <= MAX_ID ->
  xferObject id json s =
    mkRun (Ok tt) s
      [SocketWrite (frame TYPE_JSON id (utf8_encode (JSON_stringify json)))].
Proof.
  intros Hw Hid. unfold xferObject.
  apply xferRaw_run; [exact Hw | unfold TYPE_JSON; lia | exact Hid].
Qed.

(** ** The failure funnel *)

Lemma emit_error_run s error :
  emit_error error s =
    mkRun (if error_listener s then Ok tt else Throw (Unhandled error)) s
      [Emit (EvError error)].
Proof.
  unfold emit_error, bind, tell, get_session. cbn [res final trace app].
  by destruct (error_listener s).
Qed.

Lemma emit_fail_run s id code error :
  socket_writable s = true ->
  0 <= id <= MAX_ID ->
  emit_fail id code error s =
    mkRun
      (if (code =? ERROR_INTERNAL) && (id =? 0) && negb (error_listener s)
       then Throw (Unhandled error) else Ok tt)
      s
      (Emit (EvFail id code error) ::
       if id =? 0 then
         if code =? ERROR_INTERNAL then [Emit (EvError error)] else []
       else
         [SocketWrite
            (frame TYPE_JSON id
               (utf8_encode
                  (JSON_stringify
                     (VObj [("error"%string,
                             VObj [("code"%string, VNum code);
                                   ("message"%string, error)])]))))]).
Proof.
  intros Hw Hid. unfold emit_fail, bind, tell, onFailure. cbn [res final trace].
  destruct (id =? 0).
  - destruct (code =? ERROR_INTERNAL); [|reflexivity].
    rewrite emit_error_run. cbn [res final trace andb].
    by destruct (error_listener s).
  - rewrite xferObject_run by assumption. rewrite andb_false_r. reflexivity.
Qed.

(** C6.  A failure event is logged and then: at id 0 it becomes an
    [error] event of the session when the code is ERROR_INTERNAL, which
    is fatal when the host listens to no [error] event (the emitter
    throws), and is dropped otherwise, with nothing written; at any
    other id one JSON frame with [{error: {code, message}}] is written
    at that id.  The session is left as it is.  The socket is writable
    and the id is a 32-bit unsigned integer. *)
Theorem C6_failure_funnel (s : session) (id code : Z) (error : value) :
  socket_writable s = true ->
  0 <= id <= MAX_ID ->
  emit_fail id code error s =
    mkRun
      (if (code =? ERROR_INTERNAL) && (id =? 0) && negb (error_listener s)
       then Throw (Unhandled error) else Ok tt)
      s
      (Emit (EvFail id code error) ::
       if id =? 0 then
         if code =? ERROR_INTERNAL then [Emit (EvError error)] else []
       else
         [SocketWrite
            (frame TYPE_JSON id
               (utf8_encode
                  (JSON_stringify
                     (VObj [("error"%string,
                             VObj [("code"%string, VNum code);
                                   ("message"%string, error)])]))))]).
Proof. apply emit_fail_run. Qed.

(** ** Calls of completions *)

Lemma calls_at_app id t1 t2 :
  calls_at id (t1 ++ t2) = (calls_at id t1 + calls_at id t2)%nat.
Proof. unfold calls_at. by rewrite filter_app, length_app. Qed.

Lemma run_eta {A} (r : run A) : mkRun (res r) (final r) (trace r) = r.
Proof. by destruct r. Qed.

Lemma once_ret {A} (a : A) : once (ret a).
Proof. intros s id. cbn. lia. Qed.

Lemma once_throw {A} (e : exn) : once (@throw A e).
Proof. intros s id. cbn. lia. Qed.

Lemma once_lift {A} (o : outcome A) : once (lift o).
Proof. intros s id. cbn. lia. Qed.

Lemma once_get : once get_session.
Proof. intros s id. cbn. lia. Qed.

Lemma once_assert c msg : once (assert c msg).
Proof. destruct c; [apply once_ret | apply once_throw]. Qed.

Lemma once_tell e : (forall id, is_call_at id e = false) -> once (tell e).
Proof.
  intros He s id. cbn. unfold calls_at. cbn.
  case_decide as Hc; [by rewrite He in Hc|]. cbn. lia.
Qed.

Lemma once_modify f :
  (forall s, requestCallbacks (f s) = requestCallbacks s) -> once (modify f).
Proof. intros Hf s id. cbn. unfold budget. rewrite Hf. lia. Qed.

Lemma once_bind {A B} (m : M A) (k : A -> M B) :
  once m -> (forall a, once (k a)) -> once (bind m k).
Proof.
  intros Hm Hk s id. unfold bind. specialize (Hm s id).
  destruct (res (m s)) as [a|e]; cbn [trace final].
  - specialize (Hk a (final (m s)) id). rewrite calls_at_app. lia.
  - exact Hm.
Qed.

Lemma once_attempt {A} (m : M A) : once m -> once (attempt m).
Proof. intros Hm s id. exact (Hm s id). Qed.

Lemma once_attempt_data (m : M unit) : once m -> once (attempt_data m).
Proof.
  intros Hm s id. unfold attempt_data. specialize (Hm s id).
  by destruct (res (m s)).
Qed.

Ltac once_step :=
  match goal with
  | |- once (bind _ _) => apply once_bind; [|intros ?]
  | |- once (ret _) => apply once_ret
  | |- once (throw _) => apply once_throw
  | |- once (lift _) => apply once_lift
  | |- once get_session => apply once_get
  | |- once (assert _ _) => apply once_assert
  | |- once (tell _) => apply once_tell; intros ?; reflexivity
  | |- once (modify _) => apply once_modify; intros ?; reflexivity
  | |- once (if ?c then _ else _) => destruct c
  | |- once (match ?x with _ => _ end) => destruct x
  end.

Create HintDb once.

Ltac once_auto := repeat (solve [auto 2 with once] || once_step).

Lemma once_xferRaw ty id payload : once (xferRaw ty id payload).
Proof.
  unfold xferRaw, socketReady, writeUInt8, writeUInt32BE, socket_write.
  once_auto.
Qed.

#[local] Hint Resolve once_xferRaw : once.

Lemma once_xferRawZeroLength ty id : once (xferRawZeroLength ty id).
Proof.
  unfold xferRawZeroLength, socketReady, writeUInt8, writeUInt32BE, socket_write.
  once_auto.
Qed.

#[local] Hint Resolve once_xferRawZeroLength : once.

Lemma once_onFailure id code error : once (onFailure id code error).
Proof. unfold onFailure, emit_error, xferObject. once_auto. Qed.

#[local] Hint Resolve once_onFailure : once.

Lemma once_emit_fail id code error : once (emit_fail id code error).
Proof. unfold emit_fail. once_auto. Qed.

#[local] Hint Resolve once_emit_fail : once.

(** ** The request table *)

Lemma callRequestCallback_run s id error result :
  callRequestCallback id error result s =
    if id =? 0 then mkRun (Throw (AssertionError "assert(id)")) s []
    else
      match requestCallbacks s !! id with
      | Some cb =>
          mkRun (Ok tt) (consume id s) [CallRequestCallback id cb error result]
      | None =>
          if truthy error then mkRun (Ok tt) (consume id s) []
          else emit_fail id ERROR_INTERNAL
                 (VStr "Could not find callback for this ID.") (consume id s)
      end.
Proof.
  unfold callRequestCallback, bind, assert, get_session, modify.
  destruct (id =? 0); cbn; [reflexivity|].
  fold (consume id s).
  destruct (requestCallbacks s !! id); cbn; [reflexivity|].
  destruct (truthy error); cbn [negb]; [reflexivity|].
  cbn [res final trace app]. apply run_eta.
Qed.

Lemma consume_absent id s : requestCallbacks s !! id = None -> consume id s = s.
Proof.
  intros Hn. unfold consume. rewrite delete_id by exact Hn. by destruct s.
Qed.

Lemma budget_consume id id' s :
  budget (consume id s) id' = if decide (id = id') then 0%nat else budget s id'.
Proof.
  unfold budget, consume. cbn. case_decide as Hd.
  - subst. by rewrite lookup_delete_eq.
  - by rewrite lookup_delete_ne.
Qed.

Lemma once_callRequestCallback id error result :
  once (callRequestCallback id error result).
Proof.
  intros s id'. rewrite callRequestCallback_run.
  destruct (id =? 0) eqn:Hz; [cbn; lia|].
  destruct (requestCallbacks s !! id) as [cb|] eqn:Hl.
  - cbn [trace final]. rewrite budget_consume. unfold calls_at. cbn.
    case_decide as Hd; case_decide as Hc; cbn.
    + subst. unfold budget. rewrite Hl. lia.
    + lia.
    + apply Z.eqb_eq in Hc. congruence.
    + lia.
  - rewrite consume_absent by exact Hl.
    destruct (truthy error); [cbn; lia|]. apply once_emit_fail.
Qed.

#[local] Hint Resolve once_callRequestCallback : once.

(** C5.  [callRequestCallback] for an id with no entry in the request
    table: with an error argument (a true value, as at every call in
    the file) it does nothing at all; without one it emits the failure
    ERROR_INTERNAL at that id, which then takes the way of every
    failure. *)
Theorem C5_complete_unknown_id (s : session) (id : Z) (error result : value) :
  id <> 0 ->
  requestCallbacks s !! id = None ->
  callRequestCallback id error result s =
    if truthy error then mkRun (Ok tt) s []
    else
      let r := onFailure id ERROR_INTERNAL
                 (VStr "Could not find callback for this ID.") s in
      mkRun (res r) (final r)
        (Emit (EvFail id ERROR_INTERNAL
                 (VStr "Could not find callback for this ID.")) :: trace r).
Proof.
  intros Hid Hn. rewrite callRequestCallback_run.
  apply Z.eqb_neq in Hid. rewrite Hid, Hn, consume_absent by exact Hn.
  destruct (truthy error); reflexivity.
Qed.

(** ** Every listener spends at most the entries it finds *)

Lemma once_reply id message : once (reply id message).
Proof. unfold reply, xferObject, xferBuffer. once_auto. Qed.

#[local] Hint Resolve once_reply : once.

Lemma once_onComplete id error reply_ : once (onComplete id error reply_).
Proof. unfold onComplete. once_auto. Qed.

Lemma once_onMessage id message : once (onMessage id message).
Proof. unfold onMessage. once_auto. Qed.

#[local] Hint Resolve once_onComplete once_onMessage : once.

Lemma once_emit_message id message : once (emit_message id message).
Proof. unfold emit_message. once_auto. Qed.

#[local] Hint Resolve once_emit_message : once.

Lemma once_emit_incomingJSON id jsonString :
  once (emit_incomingJSON id jsonString).
Proof. unfold emit_incomingJSON, onIncomingJSON. once_auto. Qed.

Lemma once_emit_bufferComplete id : once (emit_bufferComplete id).
Proof. unfold emit_bufferComplete, bufferComplete. once_auto. Qed.

Lemma once_emit_buffer id buffer : once (emit_buffer id buffer).
Proof.
  unfold emit_buffer, bufferPut. once_auto.
  apply once_modify. intros s. by destruct (streams s !! id).
Qed.

Lemma once_updateSequence id : once (updateSequence id).
Proof. unfold updateSequence, assign_sequence. once_auto. Qed.

#[local] Hint Resolve once_emit_incomingJSON once_emit_bufferComplete
  once_emit_buffer once_updateSequence : once.

Lemma once_parser_step : once parser_step.
Proof. unfold parser_step, parseHeader, parsePacket. once_auto. Qed.

#[local] Hint Resolve once_parser_step : once.

Lemma once_parser_loop fuel : once (parser_loop fuel).
Proof. induction fuel as [|n IH]; cbn [parser_loop]; once_auto. Qed.

#[local] Hint Resolve once_parser_loop : once.

Lemma once_socket_data chunk : once (socket_data chunk).
Proof. unfold socket_data. once_auto. Qed.

#[local] Hint Resolve once_socket_data : once.

Lemma once_deliver inputs : once (deliver inputs).
Proof.
  induction inputs as [|i inputs IH]; cbn [deliver]; [apply once_ret|].
  apply once_bind; [|intros _; exact IH].
  destruct i as [chunk|id error reply_|e]; cbn [deliver_one].
  - apply once_attempt_data, once_socket_data.
  - apply once_attempt, once_onComplete.
  - apply once_attempt. destruct e; cbn [emit]; unfold emit_error; once_auto.
Qed.

Lemma budget_le_1 s id : (budget s id <= 1)%nat.
Proof. unfold budget. destruct (requestCallbacks s !! id); lia. Qed.

(** C4.  Over any run of incoming events (bytes from the peer, methods
    completing, events emitted on the session), split at any point: the completion found under [id] is
    called at most once in all, and not at all without an entry; while
    the entry is still there it has not been called, and once it is gone
    nothing later calls it; a call of [callRequestCallback] at a
    non-zero id leaves no entry under that id. *)
Theorem C4_completion_at_most_once
    (s : session) (before after : list input) (id : Z)
    (error result : value) :
  let r1 := deliver before s in
  let r2 := deliver after (final r1) in
  (calls_at id (trace r1) + calls_at id (trace r2) <= 1)%nat /\
  (calls_at id (trace r1) + calls_at id (trace r2) <= budget s id)%nat /\
  match requestCallbacks (final r1) !! id with
  | Some _ => calls_at id (trace r1) = 0%nat
  | None => calls_at id (trace r2) = 0%nat
  end /\
  if id =? 0 then True
  else requestCallbacks (final (callRequestCallback id error result s)) !! id
       = None.
Proof.
  intros r1 r2.
  pose proof (once_deliver before s id) as H1. fold r1 in H1.
  pose proof (once_deliver after (final r1) id) as H2. fold r2 in H2.
  pose proof (budget_le_1 s id) as Hb.
  repeat split; try lia.
  - destruct (requestCallbacks (final r1) !! id) as [cb|] eqn:Hl.
    + assert (budget (final r1) id = 1%nat) by (unfold budget; by rewrite Hl).
      lia.
    + assert (budget (final r1) id = 0%nat) by (unfold budget; by rewrite Hl).
      lia.
  - rewrite callRequestCallback_run. destruct (id =? 0); [exact I|].
    destruct (requestCallbacks s !! id) as [cb|] eqn:Hl.
    + cbn. apply lookup_delete_eq.
    + rewrite consume_absent by exact Hl.
      pose proof (once_emit_fail id ERROR_INTERNAL
                    (VStr "Could not find callback for this ID.") s id) as Hf.
      unfold budget in Hf. rewrite Hl in Hf.
      destruct (truthy error); [exact Hl|].
      destruct (requestCallbacks (final (emit_fail _ _ _ s)) !! id);
        [lia | reflexivity].
Qed.

(** ** The dispatcher *)

(** What [onMessage] does with a message that has an id and no method. *)
Lemma onMessage_response s id fields :
  id <> 0 ->
  truthy (assoc "method" fields) = false ->
  onMessage id (VObj fields) s =
    if truthy (assoc "error" fields)
    then callRequestCallback id (assoc "error" fields) VUndefined s
    else if truthy (assoc "result" fields)
    then callRequestCallback id VNull (assoc "result" fields) s
    else emit_fail id ERROR_INVALID
           (VStr "Messages with IDs must contain method, error, or result.") s.
Proof.
  intros Hid Hm. apply Z.eqb_neq in Hid.
  unfold onMessage, bind, lift. cbn [get_prop res final trace].
  rewrite Hm, Hid. cbn [negb res final trace].
  destruct (truthy (assoc "error" fields)).
  - cbn [app]. apply run_eta.
  - cbn [res final trace].
    destruct (truthy (assoc "result" fields)); cbn [app]; apply run_eta.
Qed.

(** C2 (the code at the failing inputs).  A reply whose [result] is
    present but false as a condition (0, false, null, the empty string)
    is not passed to [callRequestCallback]: the dispatcher answers with
    the failure ERROR_INVALID. *)
Theorem C2_falsy_result_is_rejected (s : session) (id : Z)
    (fields : list (string * value)) :
  id <> 0 ->
  truthy (assoc "method" fields) = false ->
  truthy (assoc "error" fields) = false ->
  truthy (assoc "result" fields) = false ->
  onMessage id (VObj fields) s =
    emit_fail id ERROR_INVALID
      (VStr "Messages with IDs must contain method, error, or result.") s.
Proof.
  intros Hid Hm He Hr. rewrite onMessage_response by assumption.
  by rewrite He, Hr.
Qed.

(** An array has none of the fields, so it ends in a failure. *)
Lemma onMessage_array s id items :
  onMessage id (VArr items) s =
    emit_fail id ERROR_INVALID
      (VStr (if id =? 0
             then "Messages without IDs must contain method."
             else "Messages with IDs must contain method, error, or result."))
      s.
Proof.
  unfold onMessage, bind, lift. cbn [get_prop res final trace String.eqb].
  cbn [Ascii.eqb Bool.eqb truthy].
  destruct (id =? 0); cbn [negb res final trace app truthy]; apply run_eta.
Qed.

(** C1 (the code on arrays).  A payload that parses to an array is
    handed on to [onMessage] all the same: after the failure for a
    non-empty array (none for an empty one) the [message] event is
    emitted, and the dispatcher then fails a second time. *)
Theorem C1_array_is_dispatched (s : session) (id : Z) (jsonString : string)
    (items : list value) :
  JSON_parse jsonString = Some (VArr items) ->
  socket_writable s = true ->
  0 <= id <= MAX_ID ->
  onIncomingJSON id jsonString s =
    mkRun (Ok tt) s
      ((match items with
        | [] => []
        | _ :: _ =>
            trace (emit_fail id ERROR_INVALID
                     (VStr "Expected an object, got an array.") s)
        end)
       ++ Emit (EvMessage id (VArr items))
       :: trace (onMessage id (VArr items) s)).
Proof.
  intros Hp Hw Hid. unfold onIncomingJSON. rewrite Hp.
  unfold emit_message, bind, lift, tell.
  cbn [get_prop res final trace String.eqb Ascii.eqb Bool.eqb truthy].
  rewrite !onMessage_array.
  destruct items as [|item items].
  - change (negb (Z.of_nat (length (@nil value)) =? 0)) with false.
    cbn [ret res final trace app].
    rewrite emit_fail_run by assumption. reflexivity.
  - replace (Z.of_nat (length (item :: items)) =? 0) with false
      by (symmetry; apply Z.eqb_neq; cbn [length]; lia).
    cbn [negb]. rewrite !emit_fail_run by assumption.
    reflexivity.
Qed.

(** ** Reassembly *)

Lemma messages_in_app t1 t2 :
  messages_in (t1 ++ t2) = (messages_in t1 + messages_in t2)%nat.
Proof. unfold messages_in. by rewrite filter_app, length_app. Qed.

Lemma aside_ret {A} (a : A) : aside (ret a).
Proof. by intros s. Qed.

Lemma aside_throw {A} (e : exn) : aside (@throw A e).
Proof. by intros s. Qed.

Lemma aside_lift {A} (o : outcome A) : aside (lift o).
Proof. by intros s. Qed.

Lemma aside_get : aside get_session.
Proof. by intros s. Qed.

Lemma aside_assert c msg : aside (assert c msg).
Proof. destruct c; [apply aside_ret | apply aside_throw]. Qed.

Lemma aside_tell e : is_message e = false -> aside (tell e).
Proof.
  intros He s. split; [reflexivity|]. cbn. unfold messages_in. cbn.
  case_decide as Hc; [by rewrite He in Hc | reflexivity].
Qed.

Lemma aside_modify f : (forall s, streams (f s) = streams s) -> aside (modify f).
Proof. intros Hf s. split; [apply Hf | reflexivity]. Qed.

Lemma aside_bind {A B} (m : M A) (k : A -> M B) :
  aside m -> (forall a, aside (k a)) -> aside (bind m k).
Proof.
  intros Hm Hk s. unfold bind. destruct (Hm s) as [Hs Ht].
  destruct (res (m s)) as [a|e]; cbn [trace final]; [|by split].
  destruct (Hk a (final (m s))) as [Hs' Ht'].
  split; [congruence|]. rewrite messages_in_app. lia.
Qed.

Create HintDb aside.

Ltac aside_step :=
  match goal with
  | |- aside (bind _ _) => apply aside_bind; [|intros ?]
  | |- aside (ret _) => apply aside_ret
  | |- aside (throw _) => apply aside_throw
  | |- aside (lift _) => apply aside_lift
  | |- aside get_session => apply aside_get
  | |- aside (assert _ _) => apply aside_assert
  | |- aside (tell _) => apply aside_tell; reflexivity
  | |- aside (modify _) => apply aside_modify; intros ?; reflexivity
  | |- aside (if ?c then _ else _) => destruct c
  | |- aside (match ?x with _ => _ end) => destruct x
  end.

Ltac aside_auto := repeat (solve [auto 2 with aside] || aside_step).

Lemma aside_xferRaw ty id payload : aside (xferRaw ty id payload).
Proof.
  unfold xferRaw, socketReady, writeUInt8, writeUInt32BE, socket_write.
  aside_auto.
Qed.

#[local] Hint Resolve aside_xferRaw : aside.

Lemma aside_onFailure id code error : aside (onFailure id code error).
Proof. unfold onFailure, emit_error, xferObject. aside_auto. Qed.

#[local] Hint Resolve aside_onFailure : aside.

Lemma aside_emit_fail id code error : aside (emit_fail id code error).
Proof. unfold emit_fail. aside_auto. Qed.

#[local] Hint Resolve aside_emit_fail : aside.

Lemma aside_callRequestCallback id error result :
  aside (callRequestCallback id error result).
Proof. unfold callRequestCallback. aside_auto. Qed.

#[local] Hint Resolve aside_callRequestCallback : aside.

Lemma aside_onMessage id message : aside (onMessage id message).
Proof. unfold onMessage. aside_auto. Qed.

Lemma with_streams_same s : with_streams (streams s) s = s.
Proof. by destruct s. Qed.

Lemma with_streams_twice t t' s :
  with_streams t (with_streams t' s) = with_streams t s.
Proof. reflexivity. Qed.

Lemma bufferPut_run s id buffer :
  bufferPut id buffer s =
    mkRun (Ok tt)
      (with_streams
         (<[id := default [] (streams s !! id) ++ [buffer]]> (streams s)) s)
      [].
Proof.
  unfold bufferPut, bind, get_session, modify. cbn [res final trace].
  destruct (streams s !! id) as [stream|] eqn:Hl; cbn [res final trace ret].
  - rewrite Hl. reflexivity.
  - cbn [streams with_streams]. rewrite lookup_insert_eq, insert_insert_eq.
    reflexivity.
Qed.

Lemma bind_run {A B} (m : M A) (k : A -> M B) s a s' t :
  m s = mkRun (Ok a) s' t ->
  bind m k s = mkRun (res (k a s')) (final (k a s')) (t ++ trace (k a s')).
Proof. intros Hm. unfold bind. rewrite Hm. reflexivity. Qed.

Lemma emit_buffer_run s id buffer :
  emit_buffer id buffer s =
    mkRun (Ok tt)
      (with_streams
         (<[id := default [] (streams s !! id) ++ [buffer]]> (streams s)) s)
      [Emit (EvBuffer id buffer)].
Proof.
  unfold emit_buffer, bind, tell. cbn [res final trace].
  rewrite bufferPut_run. reflexivity.
Qed.

Lemma emit_buffers_run id chunks : forall s stream,
  streams s !! id = Some stream ->
  emit_buffers id chunks s =
    mkRun (Ok tt)
      (with_streams (<[id := stream ++ chunks]> (streams s)) s)
      (map (fun c => Emit (EvBuffer id c)) chunks).
Proof.
  induction chunks as [|chunk chunks IH]; intros s stream Hl.
  - rewrite app_nil_r, insert_id by exact Hl.
    by rewrite with_streams_same.
  - cbn [emit_buffers]. rewrite (bind_run _ _ _ _ _ _ (emit_buffer_run _ _ _)).
    rewrite Hl. cbn [default].
    rewrite (IH _ (stream ++ [chunk])) by apply lookup_insert_eq.
    cbn [res final trace streams with_streams app map].
    rewrite insert_insert_eq, <- app_assoc. reflexivity.
Qed.

Lemma emit_buffers_first id chunk chunks s :
  streams s !! id = None ->
  emit_buffers id (chunk :: chunks) s =
    mkRun (Ok tt)
      (with_streams (<[id := chunk :: chunks]> (streams s)) s)
      (map (fun c => Emit (EvBuffer id c)) (chunk :: chunks)).
Proof.
  intros Hl. cbn [emit_buffers].
  rewrite (bind_run _ _ _ _ _ _ (emit_buffer_run _ _ _)).
  rewrite Hl. cbn [default app].
  rewrite (emit_buffers_run id chunks _ [chunk]) by apply lookup_insert_eq.
  cbn [res final trace streams with_streams app map].
  rewrite insert_insert_eq. reflexivity.
Qed.

Lemma emit_bufferComplete_present s id stream :
  streams s !! id = Some stream ->
  emit_bufferComplete id s =
    let message := VObj [("result"%string, VBuffer (concat stream))] in
    let r := onMessage id message (with_streams (delete id (streams s)) s) in
    mkRun (res r) (final r)
      (Emit (EvBufferComplete id) :: Emit (EvMessage id message) :: trace r).
Proof.
  intros Hl. unfold emit_bufferComplete, bufferComplete, emit_message.
  unfold bind, tell, get_session, modify. cbn [res final trace].
  rewrite Hl. cbn [res final trace app]. reflexivity.
Qed.

Lemma emit_bufferComplete_absent s id :
  streams s !! id = None ->
  emit_bufferComplete id s =
    let error := VStr "Got final packet for a stream that does not exist." in
    let r := onFailure id ERROR_INVALID error s in
    mkRun (res r) (final r)
      (Emit (EvBufferComplete id) :: Emit (EvFail id ERROR_INVALID error)
       :: trace r).
Proof.
  intros Hl. unfold emit_bufferComplete, bufferComplete, emit_fail.
  unfold bind, tell, get_session. cbn [res final trace].
  rewrite Hl. cbn [res final trace app]. reflexivity.
Qed.

Lemma messages_in_buffers id chunks :
  messages_in (map (fun c => Emit (EvBuffer id c)) chunks) = 0%nat.
Proof. induction chunks as [|c chunks IH]; [reflexivity | exact IH]. Qed.

(** C7.  For a stream that is not yet open: the events buffer(id, c1),
    ..., buffer(id, cn) (n >= 1) followed by bufferComplete(id) give
    exactly one [message] event, carrying {result: c1 ++ ... ++ cn} at
    that id, and leave no entry in [streams] under the id; a
    bufferComplete(id) alone gives the failure ERROR_INVALID at that id
    and no [message] event. *)
Theorem C7_binary_reassembly (s : session) (id : Z)
    (chunk : list byte) (chunks : list (list byte)) :
  streams s !! id = None ->
  let message := VObj [("result"%string, VBuffer (concat (chunk :: chunks)))] in
  let r := (emit_buffers id (chunk :: chunks) ;;; emit_bufferComplete id) s in
  let r0 := emit_bufferComplete id s in
  r = mkRun (res (onMessage id message s)) (final (onMessage id message s))
        (map (fun c => Emit (EvBuffer id c)) (chunk :: chunks)
         ++ Emit (EvBufferComplete id) :: Emit (EvMessage id message)
         :: trace (onMessage id message s))
  /\ messages_in (trace r) = 1%nat
  /\ streams (final r) !! id = None
  /\ (exists rest,
        trace r0 =
          Emit (EvBufferComplete id)
          :: Emit (EvFail id ERROR_INVALID
                     (VStr "Got final packet for a stream that does not exist."))
          :: rest)
  /\ messages_in (trace r0) = 0%nat
  /\ streams (final r0) !! id = None.
Proof.
  intros Hl message r r0.
  assert (Hr : r = mkRun (res (onMessage id message s))
                 (final (onMessage id message s))
                 (map (fun c => Emit (EvBuffer id c)) (chunk :: chunks)
                  ++ Emit (EvBufferComplete id) :: Emit (EvMessage id message)
                  :: trace (onMessage id message s))).
  { subst r. rewrite (bind_run _ _ _ _ _ _ (emit_buffers_first _ _ _ _ Hl)).
    rewrite (emit_bufferComplete_present _ _ (chunk :: chunks))
      by apply lookup_insert_eq.
    cbn [streams with_streams res final trace].
    rewrite delete_insert_eq, delete_id by exact Hl.
    rewrite with_streams_twice, with_streams_same.
    reflexivity. }
  destruct (aside_onMessage id message s) as [Hs Hm].
  assert (H0 : r0 = _) by exact (emit_bufferComplete_absent s id Hl).
  cbn zeta in H0.
  destruct (aside_onFailure id ERROR_INVALID
              (VStr "Got final packet for a stream that does not exist.") s)
    as [Hs0 Hm0].
  split; [exact Hr|]. rewrite Hr, H0. cbn [res final trace].
  repeat split.
  - rewrite messages_in_app, messages_in_buffers.
    change (messages_in (?a :: ?b :: ?t)) with (S (messages_in t)).
    rewrite Hm. reflexivity.
  - rewrite Hs. exact Hl.
  - eexists. reflexivity.
  - exact Hm0.
  - rewrite Hs0. exact Hl.
Qed.

(** ** The stream parser *)

Lemma keeps_ret {A X} (f : session -> X) (a : A) : keeps f (ret a).
Proof. by intros s. Qed.

Lemma keeps_throw {A X} (f : session -> X) (e : exn) : keeps f (@throw A e).
Proof. by intros s. Qed.

Lemma keeps_lift {A X} (f : session -> X) (o : outcome A) : keeps f (lift o).
Proof. by intros s. Qed.

Lemma keeps_get {X} (f : session -> X) : keeps f get_session.
Proof. by intros s. Qed.

Lemma keeps_assert {X} (f : session -> X) c msg : keeps f (assert c msg).
Proof. destruct c; [apply keeps_ret | apply keeps_throw]. Qed.

Lemma keeps_tell {X} (f : session -> X) e : keeps f (tell e).
Proof. by intros s. Qed.

Lemma keeps_modify {X} (f : session -> X) g :
  (forall s, f (g s) = f s) -> keeps f (modify g).
Proof. intros Hg s. apply Hg. Qed.

Lemma keeps_bind {A B X} (f : session -> X) (m : M A) (k : A -> M B) :
  keeps f m -> (forall a, keeps f (k a)) -> keeps f (bind m k).
Proof.
  intros Hm Hk s. unfold bind. specialize (Hm s).
  destruct (res (m s)) as [a|e]; cbn [final]; [|exact Hm].
  rewrite (Hk a). exact Hm.
Qed.

Create HintDb keeps.

Ltac keeps_step :=
  match goal with
  | |- keeps _ (bind _ _) => apply keeps_bind; [|intros ?]
  | |- keeps _ (ret _) => apply keeps_ret
  | |- keeps _ (throw _) => apply keeps_throw
  | |- keeps _ (lift _) => apply keeps_lift
  | |- keeps _ get_session => apply keeps_get
  | |- keeps _ (assert _ _) => apply keeps_assert
  | |- keeps _ (tell _) => apply keeps_tell
  | |- keeps _ (modify _) => apply keeps_modify; intros ?; reflexivity
  | |- keeps _ (if ?c then _ else _) => destruct c
  | |- keeps _ (match ?x with _ => _ end) => destruct x
  end.

Ltac keeps_auto := repeat (solve [auto 2 with keeps] || keeps_step).

Lemma reader_emit_fail id code error : keeps reader (emit_fail id code error).
Proof.
  unfold emit_fail, onFailure, emit_error, xferObject, xferRaw, socketReady,
    writeUInt8, writeUInt32BE, socket_write.
  keeps_auto.
Qed.

#[local] Hint Resolve reader_emit_fail : keeps.

Lemma reader_emit_message id message : keeps reader (emit_message id message).
Proof. unfold emit_message, onMessage, callRequestCallback. keeps_auto. Qed.

#[local] Hint Resolve reader_emit_message : keeps.

Lemma reader_emit_incomingJSON id jsonString :
  keeps reader (emit_incomingJSON id jsonString).
Proof. unfold emit_incomingJSON, onIncomingJSON. keeps_auto. Qed.

Lemma reader_emit_buffer id buffer : keeps reader (emit_buffer id buffer).
Proof.
  unfold emit_buffer, bufferPut. keeps_auto.
  apply keeps_modify. intros s. by destruct (streams s !! id).
Qed.

Lemma reader_emit_bufferComplete id : keeps reader (emit_bufferComplete id).
Proof. unfold emit_bufferComplete, bufferComplete. keeps_auto. Qed.

#[local] Hint Resolve reader_emit_incomingJSON reader_emit_buffer
  reader_emit_bufferComplete : keeps.

Lemma reader_parsePacket ty id data : keeps reader (parsePacket ty id data).
Proof. unfold parsePacket. keeps_auto. Qed.

Lemma reader_parseHeader ty id : keeps reader (parseHeader ty id).
Proof. unfold parseHeader. keeps_auto. Qed.


Lemma updateSequence_run id s :
  updateSequence id s =
    mkRun (Ok tt) (op_state (OpUpdate id) s) [].
Proof.
  unfold updateSequence, op_state. destruct (id =? 0); [reflexivity|].
  unfold bind, get_session. cbn. destruct (sequence s <? id); reflexivity.
Qed.

Lemma op_state_with_parser id p buf s :
  op_state (OpUpdate id) (with_parser p buf s) =
  with_parser p buf (op_state (OpUpdate id) s).
Proof.
  cbn [op_state]. destruct (id =? 0); [reflexivity|].
  cbn [sequence with_parser]. destruct (sequence s <? id); reflexivity.
Qed.

Lemma parser_step_magic s rest :
  parser s = AtMagic -> pending s = byte_of_Z MAGIC :: rest ->
  parser_step s = mkRun (Ok true) (with_parser AtHeader rest s) [].
Proof.
  intros Hp Hb. unfold parser_step, bind, get_session. cbn [res final trace].
  rewrite Hp, Hb. rewrite Z_of_byte_of_Z. 
  change (MAGIC mod 256 =? MAGIC) with true. cbn. reflexivity.
Qed.

Lemma parser_step_idle s :
  parser s = AtMagic -> pending s = [] ->
  parser_step s = mkRun (Ok false) s [].
Proof.
  intros Hp Hb. unfold parser_step, bind, get_session. cbn [res final trace].
  rewrite Hp, Hb. reflexivity.
Qed.

Lemma parser_step_header s ty id len rest :
  parser s = AtHeader ->
  pending s = byte_of_Z ty :: be32 id ++ be32 len ++ rest ->
  0 <= ty <= 255 -> 0 <= id <= MAX_ID -> 0 <= len <= MAX_ID ->
  parser_step s =
    if len =? 0
    then
      let r := parseHeader ty id
                 (op_state (OpUpdate id) (with_parser AtMagic rest s)) in
      mkRun (match res r with Ok _ => Ok true | Throw e => Throw e end)
            (final r) (trace r)
    else
      mkRun (Ok true)
        (op_state (OpUpdate id) (with_parser (AtData ty id len) rest s)) [].
Proof.
  intros Hp Hb Hty Hid Hlen.
  unfold parser_step, bind at 1, get_session. cbn [res final trace].
  rewrite Hp, Hb.
  change (take 1 (byte_of_Z ty :: be32 id ++ be32 len ++ rest))
    with [byte_of_Z ty].
  change (take 4 (drop 1 (byte_of_Z ty :: be32 id ++ be32 len ++ rest)))
    with (be32 id).
  change (take 4 (drop 5 (byte_of_Z ty :: be32 id ++ be32 len ++ rest)))
    with (be32 len).
  change (drop 9 (byte_of_Z ty :: be32 id ++ be32 len ++ rest)) with rest.
  change (length (byte_of_Z ty :: be32 id ++ be32 len ++ rest) <? 9)%nat
    with false.
  rewrite word_be_byte, !word_be_be32 by assumption.
  destruct (len =? 0).
  - unfold bind, modify. cbn [res final trace].
    rewrite updateSequence_run. cbn [res final trace app].
    destruct (res (parseHeader _ _ _)); cbn; rewrite ?app_nil_r; reflexivity.
  - unfold bind, modify. cbn [res final trace].
    rewrite updateSequence_run. reflexivity.
Qed.

Lemma parser_step_data s ty id payload :
  parser s = AtData ty id (Z.of_nat (length payload)) ->
  pending s = payload ->
  parser_step s =
    let r := parsePacket ty id payload (with_parser AtMagic [] s) in
    mkRun (match res r with Ok _ => Ok true | Throw e => Throw e end)
          (final r) (trace r).
Proof.
  intros Hp Hb. unfold parser_step, bind at 1, get_session.
  cbn [res final trace]. rewrite Hp, Hb, Nat2Z.id, Nat.ltb_irrefl.
  rewrite firstn_all, drop_all.
  unfold bind, modify. cbn [res final trace app].
  destruct (res (parsePacket _ _ _ _)); cbn; rewrite ?app_nil_r; reflexivity.
Qed.

Lemma parser_loop_idle fuel s :
  parser s = AtMagic -> pending s = [] ->
  parser_loop fuel s = mkRun (Ok tt) s [].
Proof.
  intros Hp Hb. destruct fuel as [|n]; [reflexivity|].
  cbn [parser_loop]. unfold bind. rewrite parser_step_idle by assumption.
  reflexivity.
Qed.

Lemma reader_idle {A} (m : M A) s :
  keeps reader m -> parser s = AtMagic -> pending s = [] ->
  parser (final (m s)) = AtMagic /\ pending (final (m s)) = [].
Proof.
  intros Hk Hp Hb. specialize (Hk s). unfold reader in Hk.
  rewrite Hp, Hb in Hk. by injection Hk.
Qed.


Lemma socket_data_run chunk s :
  socket_data chunk s =
    parser_loop (S (S (length (pending s ++ chunk))))
      (with_parser (parser s) (pending s ++ chunk) s).
Proof.
  unfold socket_data, bind, modify, get_session.
  cbn [res final trace app pending with_parser]. apply run_eta.
Qed.

Lemma parser_loop_S n s :
  parser_loop (S n) s =
    bind parser_step (fun p => if p then parser_loop n else ret tt) s.
Proof. reflexivity. Qed.

Lemma with_parser_twice p b p' b' s :
  with_parser p b (with_parser p' b' s) = with_parser p b s.
Proof. reflexivity. Qed.

Lemma with_parser_same s : with_parser (parser s) (pending s) s = s.
Proof. by destruct s. Qed.

Lemma op_state_reader id s :
  reader (op_state (OpUpdate id) s) = reader s.
Proof.
  cbn [op_state]. destruct (id =? 0); [reflexivity|].
  destruct (sequence s <? id); reflexivity.
Qed.

Lemma loop_after_listener fuel (r : run unit) :
  parser (final r) = AtMagic -> pending (final r) = [] ->
  match res r with
  | Ok _ =>
      let r' := parser_loop fuel (final r) in
      mkRun (res r') (final r') (trace r ++ trace r')
  | Throw e => mkRun (Throw e) (final r) (trace r)
  end = r.
Proof.
  intros Hp Hb. destruct r as [[[]|e] s t]; cbn in *; [|reflexivity].
  rewrite parser_loop_idle by assumption. cbn. by rewrite app_nil_r.
Qed.

Lemma parser_loop_data fuel s ty id payload :
  parser s = AtData ty id (Z.of_nat (length payload)) ->
  pending s = payload ->
  parser_loop (S (S fuel)) s =
    parsePacket ty id payload (with_parser AtMagic [] s).
Proof.
  intros Hp Hb. rewrite parser_loop_S. unfold bind.
  rewrite (parser_step_data s ty id payload Hp Hb). cbn zeta.
  set (r := parsePacket ty id payload (with_parser AtMagic [] s)).
  cbn [res final trace].
  assert (Hi : parser (final r) = AtMagic /\ pending (final r) = [])
    by (by apply reader_idle; [apply reader_parsePacket| |]).
  destruct Hi as [Hi1 Hi2].
  pose proof (loop_after_listener (S fuel) r Hi1 Hi2) as E.
  by destruct (res r) as [[]|e].
Qed.

Lemma parser_loop_header fuel s ty id payload :
  parser s = AtHeader ->
  pending s = byte_of_Z ty :: be32 id ++ be32 (Z.of_nat (length payload))
                ++ payload ->
  0 <= ty <= 255 -> 0 <= id <= MAX_ID ->
  Z.of_nat (length payload) <= MAX_ID ->
  parser_loop (S (S (S fuel))) s =
    match payload with
    | [] => parseHeader ty id
    | _ :: _ => parsePacket ty id payload
    end (with_parser AtMagic [] (op_state (OpUpdate id) s)).
Proof.
  intros Hp Hb Hty Hid Hlen. rewrite parser_loop_S. unfold bind.
  rewrite (parser_step_header s ty id _ payload Hp Hb Hty Hid) by lia.
  rewrite !op_state_with_parser.
  destruct payload as [|b payload].
  - change (Z.of_nat (length []) =? 0) with true. cbn zeta iota.
    set (r := parseHeader ty id _).
    cbn [res final trace].
    assert (Hi : parser (final r) = AtMagic /\ pending (final r) = [])
      by (by apply reader_idle; [apply reader_parseHeader| |]).
    destruct Hi as [Hi1 Hi2].
    pose proof (loop_after_listener (S (S fuel)) r Hi1 Hi2) as E.
    by destruct (res r) as [[]|e].
  - replace (Z.of_nat (length (b :: payload)) =? 0) with false
      by (symmetry; apply Z.eqb_neq; cbn [length]; lia).
    cbn [res final trace app].
    rewrite (parser_loop_data fuel _ ty id (b :: payload)) by reflexivity.
    rewrite with_parser_twice. apply run_eta.
Qed.

Lemma socket_data_frame s ty id payload :
  parser s = AtMagic -> pending s = [] ->
  0 <= ty <= 255 -> 0 <= id <= MAX_ID ->
  Z.of_nat (length payload) <= MAX_ID ->
  socket_data (frame ty id payload) s =
    (updateSequence id ;;;
     match payload with
     | [] => parseHeader ty id
     | _ :: _ => parsePacket ty id payload
     end) s.
Proof.
  intros Hp Hb Hty Hid Hlen.
  pose proof (op_state_reader id s) as Hr. unfold reader in Hr.
  rewrite Hp, Hb in Hr. injection Hr as Hp' Hb'.
  fold (op_state (OpUpdate id) s) in Hp', Hb'.
  assert (Hs' : with_parser AtMagic [] (op_state (OpUpdate id) s)
                = op_state (OpUpdate id) s).
  { rewrite <- Hp', <- Hb' at 1. apply with_parser_same. }
  unfold bind at 1. rewrite updateSequence_run. cbn [res final trace app].
  rewrite run_eta.
  rewrite socket_data_run, Hp, Hb. cbn [app].
  rewrite frame_length.
  change (S (S (10 + length payload)))
    with (S (S (S (S (8 + length payload))))).
  rewrite parser_loop_S. unfold bind.
  rewrite (parser_step_magic _ (byte_of_Z ty :: be32 id
             ++ be32 (Z.of_nat (length payload)) ++ payload))
    by reflexivity.
  cbn [res final trace app].
  rewrite (parser_loop_header _ _ ty id payload)
    by (reflexivity || assumption).
  rewrite !op_state_with_parser, !with_parser_twice, Hs'.
  apply run_eta.
Qed.
(** *** The loop ends because the reader is blocked *)

Lemma reader_updateSequence id : keeps reader (updateSequence id).
Proof. unfold updateSequence, assign_sequence. keeps_auto. Qed.

#[local] Hint Resolve reader_updateSequence reader_parsePacket
  reader_parseHeader : keeps.

Lemma final_modify_then {A} g (m : M A) s :
  final ((modify g ;;; m) s) = final (m (g s)).
Proof. reflexivity. Qed.

Lemma final_then_ret {A B} (m : M A) (b : B) s :
  final ((m ;;; ret b) s) = final (m s).
Proof. unfold bind. by destruct (res (m s)). Qed.

Lemma res_then_true {A} (m : M A) s : res ((m ;;; ret true) s) <> Ok false.
Proof. unfold bind. by destruct (res (m s)). Qed.

Lemma reader_after_modify {A} g (m : M A) s :
  keeps reader m -> reader (final ((modify g ;;; m) s)) = reader (g s).
Proof. intros Hk. rewrite final_modify_then. apply Hk. Qed.

Lemma backlog_reader s s' : reader s' = reader s -> backlog s' = backlog s.
Proof. unfold reader, backlog. by intros [= -> ->]. Qed.

Lemma bind_get {A} (k : session -> M A) s : bind get_session k s = k s s.
Proof. unfold bind, get_session. cbn. apply run_eta. Qed.

Lemma parser_step_cases s :
  parser_step s = mkRun (Ok false) s [] \/
  (res (parser_step s) <> Ok false /\
   (backlog (final (parser_step s)) < backlog s)%nat).
Proof.
  unfold parser_step. rewrite !bind_get. cbn zeta.
  destruct (parser s) as [| |ty id len|] eqn:Hp; [| | |by left].
  - destruct (pending s) as [|b rest] eqn:Hb; [by left|].
    right. destruct (Z_of_byte b =? MAGIC).
    + split; [apply res_then_true|].
      rewrite final_then_ret. unfold backlog. cbn. rewrite Hp, Hb. cbn. lia.
    + split.
      * unfold bind at 1. cbn [res final trace modify]. apply res_then_true.
      * erewrite backlog_reader
          by (rewrite reader_after_modify by keeps_auto; reflexivity).
        unfold backlog. rewrite Hp, Hb. cbn. lia.
  - destruct (length (pending s) <? 9)%nat eqn:Hlen; [by left|].
    apply Nat.ltb_ge in Hlen. right. split; [apply res_then_true|].
    rewrite final_then_ret.
    destruct (word_be (take 4 (drop 5 (pending s))) =? 0).
    + erewrite backlog_reader
        by (rewrite reader_after_modify by keeps_auto; reflexivity).
      unfold backlog. rewrite Hp. cbn. rewrite length_drop. lia.
    + erewrite backlog_reader
        by (rewrite reader_after_modify by keeps_auto; reflexivity).
      unfold backlog. rewrite Hp. cbn. rewrite length_drop. lia.
  - destruct (length (pending s) <? Z.to_nat len)%nat eqn:Hlen; [by left|].
    right. split.
    + unfold bind at 1. cbn [res final trace modify]. apply res_then_true.
    + erewrite backlog_reader
        by (rewrite reader_after_modify by keeps_auto; reflexivity).
      unfold backlog. rewrite Hp. cbn. rewrite length_drop. lia.
Qed.



(** C9.  For every type among HANDSHAKE, JSON and BUFFER_RESPONSE,
    every 32-bit id and every payload (a Buffer, of less than 2^32
    bytes): the encoder writes one packet, the ten-byte header that
    begins with the magic byte followed by the payload; the reads of the
    parser (a byte, a big-endian word, a big-endian word, then as many
    bytes as the second word says) take from the packet the type, the
    id, the length and the payload that were encoded; and a parser
    waiting at a frame boundary that is fed the packet runs its taps on
    exactly this tuple: [updateSequence] on the id, then [parseHeader]
    on (type, id) when the payload is empty and [parsePacket] on (type,
    id, payload) otherwise. *)
Theorem C9_frame_round_trip (s0 s : session) (ty id : Z) (payload : list byte) :
  socket_writable s0 = true ->
  parser s = AtMagic ->
  pending s = [] ->
  ty = TYPE_HANDSHAKE \/ ty = TYPE_JSON \/ ty = TYPE_BUFFER_RESPONSE ->
  0 <= id <= MAX_ID ->
  Z.of_nat (length payload) <= MAX_ID ->
  exists packet,
    xferRaw ty id payload s0 = mkRun (Ok tt) s0 [SocketWrite packet] /\
    length packet = (10 + length payload)%nat /\
    head packet = Some (byte_of_Z MAGIC) /\
    (word_be (take 1 (drop 1 packet)),
     word_be (take 4 (drop 2 packet)),
     take (Z.to_nat (word_be (take 4 (drop 6 packet)))) (drop 10 packet))
      = (ty, id, payload) /\
    socket_data packet s =
      (updateSequence id ;;;
       match payload with
       | [] => parseHeader ty id
       | _ :: _ => parsePacket ty id payload
       end) s.
Proof.
  intros Hw Hp Hb Hty Hid Hlen.
  assert (Hty' : 0 <= ty <= 255)
    by (unfold TYPE_HANDSHAKE, TYPE_JSON, TYPE_BUFFER_RESPONSE in Hty; lia).
  assert (Hwlen : word_be (take 4 (drop 6 (frame ty id payload)))
                  = Z.of_nat (length payload))
    by (apply word_be_be32; lia).
  exists (frame ty id payload).
  split; [by apply xferRaw_run|].
  split; [apply frame_length|].
  split; [reflexivity|].
  split.
  { rewrite Hwlen, Nat2Z.id.
    change (drop 10 (frame ty id payload)) with payload.
    rewrite firstn_all.
    change (take 1 (drop 1 (frame ty id payload))) with [byte_of_Z ty].
    change (take 4 (drop 2 (frame ty id payload))) with (be32 id).
    by rewrite word_be_byte, word_be_be32. }
  by apply socket_data_frame.
Qed.

(** The zero-length frames: the terminator of a binary reply and the
    handshake. *)
Lemma socket_data_sentinel s ty id :
  parser s = AtMagic -> pending s = [] ->
  0 <= ty <= 255 -> 0 <= id <= MAX_ID ->
  socket_data (frame ty id []) s =
    (updateSequence id ;;;
     if ty =? TYPE_BUFFER_RESPONSE then emit_bufferComplete id
     else if ty =? TYPE_HANDSHAKE then tell (Emit EvReady)
     else emit_fail id ERROR_INVALID (VStr "Unexpected 0-length header.")) s.
Proof.
  intros Hp Hb Hty Hid.
  rewrite socket_data_frame by (assumption || (cbn; unfold MAX_ID; lia)).
  reflexivity.
Qed.

End SessionProperties.

(** ** The theorems at concrete inputs *)

Lemma C1_witness :
  onIncomingJSON 5 "[1]" (fresh false) =
    mkRun (Ok tt) (fresh false)
      (trace (emit_fail 5 ERROR_INVALID
                (VStr "Expected an object, got an array.") (fresh false))
       ++ Emit (EvMessage 5 (VArr [VNum 1]))
       :: trace (onMessage 5 (VArr [VNum 1]) (fresh false))).
Proof.
  apply (C1_array_is_dispatched (fresh false) 5 "[1]" [VNum 1]).
  - reflexivity.
  - reflexivity.
  - unfold MAX_ID. lia.
Defined.

Lemma C2_witness :
  onMessage 2 (VObj [("result"%string, VNum 0)]) (pending_request 2 7%nat) =
    emit_fail 2 ERROR_INVALID
      (VStr "Messages with IDs must contain method, error, or result.")
      (pending_request 2 7%nat).
Proof.
  apply (C2_falsy_result_is_rejected (pending_request 2 7%nat) 2
           [("result"%string, VNum 0)]).
  - lia.
  - reflexivity.
  - reflexivity.
  - reflexivity.
Defined.

Lemma C5_witness :
  callRequestCallback 4 (VObj [("code"%string, VNum ERROR_INTERNAL)]) VUndefined
      (fresh true) =
    mkRun (Ok tt) (fresh true) [].
Proof.
  apply (C5_complete_unknown_id (fresh true) 4
           (VObj [("code"%string, VNum ERROR_INTERNAL)]) VUndefined).
  - lia.
  - apply lookup_empty.
Defined.

Lemma C6_witness :
  emit_fail 0 ERROR_INTERNAL (VStr "Could not find callback for this ID.")
      (fresh false) =
    mkRun
      (if (ERROR_INTERNAL =? ERROR_INTERNAL) && (0 =? 0)
          && negb (error_listener (fresh false))
       then Throw (Unhandled (VStr "Could not find callback for this ID."))
       else Ok tt)
      (fresh false)
      (Emit (EvFail 0 ERROR_INTERNAL
               (VStr "Could not find callback for this ID.")) ::
       if 0 =? 0 then
         if ERROR_INTERNAL =? ERROR_INTERNAL
         then [Emit (EvError (VStr "Could not find callback for this ID."))]
         else []
       else
         [SocketWrite
            (frame TYPE_JSON 0
               (utf8_encode
                  (JSON_stringify
                     (VObj [("error"%string,
                             VObj [("code"%string, VNum ERROR_INTERNAL);
                                   ("message"%string,
                                    VStr "Could not find callback for this ID.")])]))))]).
Proof.
  apply (C6_failure_funnel (fresh false) 0 ERROR_INTERNAL
           (VStr "Could not find callback for this ID.")).
  - reflexivity.
  - unfold MAX_ID. lia.
Defined.

Lemma C7_witness :
  let s := fresh true in
  let id := 9 in
  let chunk := [xde; xad] in
  let chunks := [[xbe]; [xef]] in
  let message := VObj [("result"%string, VBuffer (concat (chunk :: chunks)))] in
  let r := (emit_buffers id (chunk :: chunks) ;;; emit_bufferComplete id) s in
  let r0 := emit_bufferComplete id s in
  r = mkRun (res (onMessage id message s)) (final (onMessage id message s))
        (map (fun c => Emit (EvBuffer id c)) (chunk :: chunks)
         ++ Emit (EvBufferComplete id) :: Emit (EvMessage id message)
         :: trace (onMessage id message s))
  /\ messages_in (trace r) = 1%nat
  /\ streams (final r) !! id = None
  /\ (exists rest,
        trace r0 =
          Emit (EvBufferComplete id)
          :: Emit (EvFail id ERROR_INVALID
                     (VStr "Got final packet for a stream that does not exist."))
          :: rest)
  /\ messages_in (trace r0) = 0%nat
  /\ streams (final r0) !! id = None.
Proof.
  apply (C7_binary_reassembly (fresh true) 9 [xde; xad] [[xbe]; [xef]]).
  apply lookup_empty.
Defined.

Lemma C9_witness :
  exists packet,
    xferRaw TYPE_BUFFER_RESPONSE 9 [xde; xad; xbe; xef] (fresh true) =
      mkRun (Ok tt) (fresh true) [SocketWrite packet] /\
    length packet = (10 + length [xde; xad; xbe; xef])%nat /\
    head packet = Some (byte_of_Z MAGIC) /\
    (word_be (take 1 (drop 1 packet)),
     word_be (take 4 (drop 2 packet)),
     take (Z.to_nat (word_be (take 4 (drop 6 packet)))) (drop 10 packet))
      = (TYPE_BUFFER_RESPONSE, 9, [xde; xad; xbe; xef]) /\
    socket_data packet (fresh false) =
      (updateSequence 9 ;;;
       match [xde; xad; xbe; xef] with
       | [] => parseHeader TYPE_BUFFER_RESPONSE 9
       | _ :: _ => parsePacket TYPE_BUFFER_RESPONSE 9 [xde; xad; xbe; xef]
       end) (fresh false).
Proof.
  apply (C9_frame_round_trip (fresh true) (fresh false)
           TYPE_BUFFER_RESPONSE 9 [xde; xad; xbe; xef]).
  - reflexivity.
  - reflexivity.
  - reflexivity.
  - right. right. reflexivity.
  - unfold MAX_ID. lia.
  - unfold MAX_ID. simpl. lia.
Defined.

(** ** The failing inputs, and the bytes of the scenarios *)

(** C1: the array [[1]] at id 5.  The failure is sent, and the array is
    still emitted as a [message], which the dispatcher fails again. *)
Example array_frame_trace :
  trace (onIncomingJSON 5 "[1]" (fresh false)) =
    [ Emit (EvFail 5 ERROR_INVALID (VStr "Expected an object, got an array."));
      SocketWrite (frame TYPE_JSON 5 (bytes_of_string "{error}"));
      Emit (EvMessage 5 (VArr [VNum 1]));
      Emit (EvFail 5 ERROR_INVALID
              (VStr "Messages with IDs must contain method, error, or result."));
      SocketWrite (frame TYPE_JSON 5 (bytes_of_string "{error}")) ].
Proof. vm_compute. reflexivity. Qed.

(** The empty array is not even failed by [onIncomingJSON]. *)
Example empty_array_frame_trace :
  trace (onIncomingJSON 5 "[]" (fresh false)) =
    [ Emit (EvMessage 5 (VArr []));
      Emit (EvFail 5 ERROR_INVALID
              (VStr "Messages with IDs must contain method, error, or result."));
      SocketWrite (frame TYPE_JSON 5 (bytes_of_string "{error}")) ].
Proof. vm_compute. reflexivity. Qed.

(** C2: the reply [{result: 0}] for the pending request 2.  The
    completion is not called and stays in the table; the peer gets an
    error. *)
Example zero_result_trace :
  let r := onMessage 2 (VObj [("result"%string, VNum 0)])
             (pending_request 2 7%nat) in
  trace r =
    [ Emit (EvFail 2 ERROR_INVALID
              (VStr "Messages with IDs must contain method, error, or result."));
      SocketWrite (frame TYPE_JSON 2 (bytes_of_string "{error}")) ]
  /\ requestCallbacks (final r) !! 2 = Some 7%nat.
Proof. split; vm_compute; reflexivity. Qed.

(** The reply [{result: 3}] for the same request, sent twice: one call
    of the completion, then the failure ERROR_INTERNAL. *)
Example reply_twice_trace :
  let packet := frame TYPE_JSON 2 (bytes_of_string reply_text) in
  trace (deliver [InSocketData packet; InSocketData packet]
           (pending_request 2 7%nat)) =
    [ Emit (EvIncomingJSON 2 reply_text);
      Emit (EvMessage 2 (VObj [("result"%string, VNum 3)]));
      CallRequestCallback 2 7%nat VNull (VNum 3);
      Emit (EvIncomingJSON 2 reply_text);
      Emit (EvMessage 2 (VObj [("result"%string, VNum 3)]));
      Emit (EvFail 2 ERROR_INTERNAL
              (VStr "Could not find callback for this ID."));
      SocketWrite (frame TYPE_JSON 2 (bytes_of_string "{error}")) ].
Proof. vm_compute. reflexivity. Qed.

(** The tuples that carry no message: a HANDSHAKE frame with a payload
    is decoded and then failed as "Unknown packet type.", a JSON frame
    with an empty payload as "Unexpected 0-length header.". *)
Example handshake_payload_trace :
  trace (socket_data (frame TYPE_HANDSHAKE 5 [x01]) (fresh false)) =
    [ Emit (EvFail 5 ERROR_INVALID (VStr "Unknown packet type."));
      SocketWrite (frame TYPE_JSON 5 (bytes_of_string "{error}")) ].
Proof. vm_compute. reflexivity. Qed.

Example empty_json_frame_trace :
  trace (socket_data (frame TYPE_JSON 5 []) (fresh false)) =
    [ Emit (EvFail 5 ERROR_INVALID (VStr "Unexpected 0-length header."));
      SocketWrite (frame TYPE_JSON 5 (bytes_of_string "{error}")) ].
Proof. vm_compute. reflexivity. Qed.

(** S1: the instigator's first bytes are the handshake. *)
Example handshake_bytes :
  trace (BlizzardSession ∅ true true) =
    [SocketWrite [x59; x00; x00; x00; x00; x00; x00; x00; x00; x00]].
Proof. vm_compute. reflexivity. Qed.

(** S4: a binary reply is one data frame and its terminator. *)
Example binary_reply_bytes :
  trace (reply 9 (VBuffer [xde; xad; xbe; xef]) (fresh false)) =
    [ SocketWrite [x59; x03; x00; x00; x00; x09; x00; x00; x00; x04;
                   xde; xad; xbe; xef];
      SocketWrite [x59; x03; x00; x00; x00; x09; x00; x00; x00; x00] ].
Proof. vm_compute. reflexivity. Qed.

(** S2 and property 8: a request with a completion takes the next id
    and registers it; one without goes out at id 0 and registers
    nothing. *)
Example request_registers :
  let r := request (VStr "add") (VArr [VNum 1; VNum 2]) (Some 7%nat)
             (fresh true) in
  trace r = [SocketWrite (frame TYPE_JSON 2 (bytes_of_string "{method}"))]
  /\ requestCallbacks (final r) !! 2 = Some 7%nat
  /\ sequence (final r) = 2.
Proof. repeat split; vm_compute; reflexivity. Qed.

Example notification_registers_nothing :
  let r := request (VStr "log") VUndefined None (fresh true) in
  trace r = [SocketWrite (frame TYPE_JSON 0 (bytes_of_string "{method}"))]
  /\ requestCallbacks (final r) = ∅
  /\ sequence (final r) = 0.
Proof. repeat split; vm_compute; reflexivity. Qed.

(** S3: a method that is not exposed. *)
Example unknown_method_trace :
  trace (onMessage 7 (VObj [("method"%string, VStr "nope")]) (fresh false)) =
    [ Emit (EvFail 7 ERROR_METHOD (VStr "Method nope not found."));
      SocketWrite (frame TYPE_JSON 7 (bytes_of_string "{error}")) ].
Proof. vm_compute. reflexivity. Qed.

(** A name that the method table inherits is found by the lookup: the
    inherited function is called, and the peer gets no answer. *)
Example inherited_method_trace :
  onMessage 7 (VObj [("method"%string, VStr "toString")]) (fresh false) =
    mkRun (Ok tt) (fresh false) [CallMethod 100%nat (VArr []) 7].
Proof. vm_compute. reflexivity. Qed.

(** The three ways of a failure: answered at its id, dropped at id 0,
    and fatal at id 0 for ERROR_INTERNAL when nothing listens to
    [error]. *)
Example failure_traces :
  emit_fail 7 ERROR_INTERNAL (VStr "lost") (fresh false) =
    mkRun (Ok tt) (fresh false)
      [ Emit (EvFail 7 ERROR_INTERNAL (VStr "lost"));
        SocketWrite (frame TYPE_JSON 7 (bytes_of_string "{error}")) ] /\
  emit_fail 0 ERROR_INVALID (VStr "lost") (fresh false) =
    mkRun (Ok tt) (fresh false) [Emit (EvFail 0 ERROR_INVALID (VStr "lost"))] /\
  emit_fail 0 ERROR_INTERNAL (VStr "lost") (fresh false) =
    mkRun (Throw (Unhandled (VStr "lost"))) (fresh false)
      [ Emit (EvFail 0 ERROR_INTERNAL (VStr "lost"));
        Emit (EvError (VStr "lost")) ].
Proof. repeat split; vm_compute; reflexivity. Qed.

(** A listener that throws inside a tap ends the reader: here the
    failure of an unparsable payload cannot be written, and the
    handshake that follows is not read. *)
Example stuck_reader_trace :
  let r := deliver [InSocketData (frame TYPE_JSON 5 [x01]);
                    InSocketData (frame TYPE_HANDSHAKE 0 [])] unwritable in
  trace r =
    [ Emit (EvIncomingJSON 5 (string_of_bytes [x01]));
      Emit (EvFail 5 ERROR_PARSE
              (VError ("Unable to parse JSON: "
                       ++ example_stringify (VStr (string_of_bytes [x01]))))) ]
  /\ parser (final r) = Stuck.
Proof. split; vm_compute; reflexivity. Qed.

(** * Further properties of the code *)

(** ** The id allocator between rollovers, and the sync with peer ids *)

Lemma allocate_progression_from n : forall s,
  0 <= sequence s ->
  sequence s + Z.of_nat n * step_of s <= MAX_ID ->
  res (allocate n s) =
    Ok (map (fun k => sequence s + Z.of_nat k * step_of s) (seq 1 n)).
Proof.
  induction n as [|n IH]; intros s H0 Hmax; [reflexivity|].
  rewrite allocate_succ. cbn zeta.
  set (s' := sequence_setter (sequence s + step_of s) s).
  assert (Hstep : 1 <= step_of s <= 2)
    by (unfold step_of; destruct (instigator s); lia).
  assert (Hs' : sequence s' = sequence s + step_of s).
  { subst s'. rewrite sequence_setter_value.
    destruct (Z.ltb_spec MAX_ID (sequence s + step_of s)); [nia | reflexivity]. }
  assert (Hst : step_of s' = step_of s) by reflexivity.
  rewrite (IH s') by (rewrite ?Hs', ?Hst; nia).
  cbn [res final trace seq map]. f_equal. f_equal; [lia|].
  rewrite <- (seq_shift n 1), map_map. apply map_ext. intros k.
  rewrite Hs', Hst. lia.
Qed.

Lemma apply_op_run_update id s :
  updateSequence id s = mkRun (Ok tt) (op_state (OpUpdate id) s) [].
Proof. exact (apply_op_run (OpUpdate id) s). Qed.

(** X1.  While the sequence stays below the rollover, the ids that
    [nextSequence] returns are sequence + step, sequence + 2 step, ...
    (step 2 for the instigator, 1 otherwise): each one is larger than
    the one before, so no id is handed out twice. *)
Theorem X1_ids_increase_between_rollovers (s : session) (n : nat) :
  0 <= sequence s ->
  sequence s + Z.of_nat n * step_of s <= MAX_ID ->
  exists ids,
    res (allocate n s) = Ok ids /\
    ids = map (fun k => sequence s + Z.of_nat k * step_of s) (seq 1 n) /\
    (forall i j a b,
       ids !! i = Some a -> ids !! j = Some b -> (i < j)%nat -> a < b) /\
    NoDup ids.
Proof.
  intros H0 Hmax. eexists. split; [by apply allocate_progression_from|].
  split; [reflexivity|].
  assert (Hstep : 1 <= step_of s)
    by (unfold step_of; destruct (instigator s); lia).
  assert (Hlt : forall i j a b,
            map (fun k => sequence s + Z.of_nat k * step_of s) (seq 1 n) !! i
              = Some a ->
            map (fun k => sequence s + Z.of_nat k * step_of s) (seq 1 n) !! j
              = Some b ->
            (i < j)%nat -> a < b).
  { intros i j a b Hi Hj Hij.
    rewrite list_lookup_fmap in Hi, Hj.
    destruct (seq 1 n !! i) as [ki|] eqn:Hki; [|discriminate].
    destruct (seq 1 n !! j) as [kj|] eqn:Hkj; [|discriminate].
    apply lookup_seq in Hki as [-> _]. apply lookup_seq in Hkj as [-> _].
    cbn in Hi, Hj. injection Hi as <-. injection Hj as <-. nia. }
  split; [exact Hlt|].
  apply NoDup_alt. intros i j a Hi Hj.
  destruct (Nat.lt_trichotomy i j) as [Hij | [-> | Hij]]; [|reflexivity|].
  - pose proof (Hlt i j a a Hi Hj Hij). lia.
  - pose proof (Hlt j i a a Hj Hi Hij). lia.
Qed.

Lemma X1_witness :
  exists ids,
    res (allocate 4 (fresh true)) = Ok ids /\
    ids = map (fun k => sequence (fresh true)
                        + Z.of_nat k * step_of (fresh true)) (seq 1 4) /\
    (forall i j a b,
       ids !! i = Some a -> ids !! j = Some b -> (i < j)%nat -> a < b) /\
    NoDup ids.
Proof.
  apply (X1_ids_increase_between_rollovers (fresh true) 4).
  - vm_compute. discriminate.
  - vm_compute. discriminate.
Defined.

(** X2.  [updateSequence] is idempotent, and after a sync on a peer id
    above the local sequence the next id allocated is peer id + 1 +
    step: it lies above every id seen so far.  (The room for it below
    2^32 is the hypothesis.) *)
Theorem X2_sync_then_allocate (s : session) (id : Z) :
  0 <= sequence s ->
  sequence s < id ->
  id + 1 + step_of s <= MAX_ID ->
  final (updateSequence id (final (updateSequence id s)))
    = final (updateSequence id s) /\
  res ((updateSequence id ;;; nextSequence) s) = Ok (id + 1 + step_of s) /\
  sequence s < id + 1 + step_of s /\ id < id + 1 + step_of s.
Proof.
  intros H0 Hlt Hmax.
  assert (Hstep : 1 <= step_of s <= 2)
    by (unfold step_of; destruct (instigator s); lia).
  assert (Hne : (id =? 0) = false) by (apply Z.eqb_neq; lia).
  assert (Hup : op_state (OpUpdate id) s = sequence_setter (id + 1) s).
  { cbn [op_state]. rewrite Hne.
    by replace (sequence s <? id) with true by (symmetry; apply Z.ltb_lt; lia). }
  assert (Hseq : sequence (sequence_setter (id + 1) s) = id + 1).
  { rewrite sequence_setter_value.
    by replace (MAX_ID <? id + 1) with false by (symmetry; apply Z.ltb_ge; lia). }
  rewrite !apply_op_run_update.
  split; [|split; [|lia]].
  - cbn [final]. rewrite Hup. cbn [op_state]. rewrite Hne, Hseq.
    by replace (id + 1 <? id) with false by (symmetry; apply Z.ltb_ge; lia).
  - unfold bind. rewrite apply_op_run_update. cbn [res final trace].
    rewrite nextSequence_run, Hup. cbn [res final trace].
    rewrite sequence_setter_value, Hseq.
    change (step_of (sequence_setter (id + 1) s)) with (step_of s).
    by replace (MAX_ID <? id + 1 + step_of s) with false
      by (symmetry; apply Z.ltb_ge; lia).
Qed.

Lemma X2_witness :
  final (updateSequence 7 (final (updateSequence 7 (fresh true))))
    = final (updateSequence 7 (fresh true)) /\
  res ((updateSequence 7 ;;; nextSequence) (fresh true))
    = Ok (7 + 1 + step_of (fresh true)) /\
  sequence (fresh true) < 7 + 1 + step_of (fresh true) /\
  7 < 7 + 1 + step_of (fresh true).
Proof.
  apply (X2_sync_then_allocate (fresh true) 7).
  - vm_compute. discriminate.
  - reflexivity.
  - vm_compute. discriminate.
Defined.

Section FurtherProperties.

Context `{Platform}.

(** ** The frame codec *)

Lemma xferRawZeroLength_as_xferRaw s ty id :
  socket_writable s = true -> 0 <= ty <= 255 -> 0 <= id <= MAX_ID ->
  xferRawZeroLength ty id s = xferRaw ty id [] s.
Proof.
  intros Hw Hty Hid.
  rewrite xferRaw_run by assumption.
  unfold xferRawZeroLength, socketReady, bind, get_session, writeUInt8,
    writeUInt32BE.
  cbn. rewrite Hw. cbn.
  replace ((0 <=? ty) && (ty <=? 255)) with true
    by (symmetry; apply andb_true_intro; split; apply Z.leb_le; lia).
  cbn.
  replace ((0 <=? id) && (id <=? MAX_ID)) with true
    by (symmetry; apply andb_true_intro; split; apply Z.leb_le; lia).
  reflexivity.
Qed.

(** Steps through a computation built from the monad's operations. *)
Ltac keeps_step :=
  match goal with
  | |- keeps _ (bind _ _) => apply keeps_bind; [|intros ?]
  | |- keeps _ (ret _) => apply keeps_ret
  | |- keeps _ (throw _) => apply keeps_throw
  | |- keeps _ (lift _) => apply keeps_lift
  | |- keeps _ get_session => apply keeps_get
  | |- keeps _ (assert _ _) => apply keeps_assert
  | |- keeps _ (tell _) => apply keeps_tell
  | |- keeps _ (modify _) => apply keeps_modify; intros ?; reflexivity
  | |- keeps _ (if ?c then _ else _) => destruct c
  | |- keeps _ (match ?x with _ => _ end) => destruct x
  end.

Ltac keeps_auto := repeat keeps_step.

(** X3.  The packet that [xferRaw] writes is the ten-byte header of the
    wire format followed by the payload: magic 89, the type, the id and
    the payload length as big-endian words at offsets 0, 1, 2 and 6.
    [xferRawZeroLength] writes what [xferRaw] writes for an empty
    buffer. *)
Theorem X3_header_layout (s : session) (ty id : Z) (payload : list byte) :
  socket_writable s = true ->
  0 <= ty <= 255 ->
  0 <= id <= MAX_ID ->
  Z.of_nat (length payload) <= MAX_ID ->
  exists packet,
    xferRaw ty id payload s = mkRun (Ok tt) s [SocketWrite packet] /\
    length packet = (10 + length payload)%nat /\
    word_be (take 1 packet) = MAGIC /\
    word_be (take 1 (drop 1 packet)) = ty /\
    word_be (take 4 (drop 2 packet)) = id /\
    word_be (take 4 (drop 6 packet)) = Z.of_nat (length payload) /\
    drop 10 packet = payload /\
    xferRawZeroLength ty id s = xferRaw ty id [] s.
Proof.
  intros Hw Hty Hid Hlen. exists (frame ty id payload).
  split; [by apply xferRaw_run|].
  split; [apply frame_length|].
  split; [reflexivity|].
  split; [apply (word_be_byte ty Hty)|].
  split; [apply (word_be_be32 id Hid)|].
  split; [apply word_be_be32; lia|].
  split; [reflexivity|].
  by apply xferRawZeroLength_as_xferRaw.
Qed.

Lemma keeps_table_emit_fail id code error :
  keeps requestCallbacks (emit_fail id code error).
Proof.
  unfold emit_fail, onFailure, emit_error, xferObject, xferRaw, socketReady,
    writeUInt8, writeUInt32BE, socket_write.
  keeps_auto.
Qed.

(** ** Requests *)

(** The id a request with a completion takes. *)
Lemma request_run s method params cb :
  request method params (Some cb) s =
    let s1 := op_state OpNext s in
    let id := sequence s1 in
    let s2 := with_requestCallbacks (<[id := cb]> (requestCallbacks s1)) s1 in
    let rpc :=
      if truthy params
      then VObj [("method"%string, method); ("params"%string, params)]
      else VObj [("method"%string, method)] in
    xferObject id rpc s2.
Proof.
  unfold request.
  erewrite bind_run.
  2:{ unfold bind. rewrite nextSequence_run. reflexivity. }
  cbn [app op_state]. apply run_eta.
Qed.

(** X4.  On a socket that is not writable, [request] with a completion
    throws "Socket not writable." and writes nothing, but only after it
    has taken the next id and stored the completion under it: the entry
    stays in the request table. *)
Theorem X4_request_on_closed_socket (s : session) (method params : value)
    (cb : callback) :
  socket_writable s = false ->
  let r := request method params (Some cb) s in
  let id := sequence (sequence_setter (sequence s + step_of s) s) in
  res r = Throw (AssertionError "Socket not writable.") /\
  trace r = [] /\
  sequence (final r) = id /\
  requestCallbacks (final r) !! id = Some cb.
Proof.
  intros Hw r id. subst r. rewrite request_run. cbn zeta.
  unfold xferObject. rewrite xferRaw_closed by exact Hw.
  cbn [res final trace]. repeat split.
  apply lookup_insert_eq.
Qed.

(** X5.  [request] without a completion is a notification: the frame
    goes out at id 0, and neither the sequence nor the request table
    changes. *)
Theorem X5_notification (s : session) (method params : value) :
  socket_writable s = true ->
  request method params None s =
    mkRun (Ok tt) s
      [SocketWrite
         (frame TYPE_JSON 0
            (utf8_encode
               (JSON_stringify
                  (if truthy params
                   then VObj [("method"%string, method);
                              ("params"%string, params)]
                   else VObj [("method"%string, method)]))))].
Proof.
  intros Hw. unfold request. unfold bind, ret. cbn [res final trace app].
  rewrite xferObject_run by (assumption || (unfold MAX_ID; lia)).
  reflexivity.
Qed.

(** X6.  A request and its reply: on a writable socket, with room below
    the rollover, [request] with a completion writes one JSON frame at
    the new id sequence + step and stores the completion under it; a
    reply at that id with a true [result] (and no [method] or [error])
    then calls this completion with (null, result), once, and frees the
    entry. *)
Theorem X6_request_then_reply (s : session) (method params : value)
    (cb : callback) (fields : list (string * value)) :
  socket_writable s = true ->
  0 <= sequence s ->
  sequence s + step_of s <= MAX_ID ->
  truthy (assoc "method" fields) = false ->
  truthy (assoc "error" fields) = false ->
  truthy (assoc "result" fields) = true ->
  let id := sequence s + step_of s in
  let r := request method params (Some cb) s in
  res r = Ok tt /\
  (exists payload, trace r = [SocketWrite (frame TYPE_JSON id payload)]) /\
  requestCallbacks (final r) !! id = Some cb /\
  onMessage id (VObj fields) (final r) =
    mkRun (Ok tt) (consume id (final r))
      [CallRequestCallback id cb VNull (assoc "result" fields)] /\
  requestCallbacks (consume id (final r)) !! id = None.
Proof.
  intros Hw H0 Hmax Hm He Hr id r.
  assert (Hstep : 1 <= step_of s)
    by (unfold step_of; destruct (instigator s); lia).
  assert (Hseq : sequence (op_state OpNext s) = id).
  { cbn [op_state]. rewrite sequence_setter_value.
    by replace (MAX_ID <? sequence s + step_of s) with false
      by (symmetry; apply Z.ltb_ge; lia). }
  assert (Hrun : r = mkRun (Ok tt)
            (with_requestCallbacks
               (<[id := cb]> (requestCallbacks (op_state OpNext s)))
               (op_state OpNext s))
            [SocketWrite (frame TYPE_JSON id
               (utf8_encode (JSON_stringify
                  (if truthy params
                   then VObj [("method"%string, method);
                              ("params"%string, params)]
                   else VObj [("method"%string, method)]))))]).
  { subst r. rewrite request_run. cbn zeta. rewrite Hseq.
    apply xferObject_run; [exact Hw | subst id; lia]. }
  rewrite Hrun. cbn [res final trace].
  split; [reflexivity|]. split; [eauto|].
  split; [apply lookup_insert_eq|].
  split; [|apply lookup_delete_eq].
  rewrite onMessage_response by (assumption || (subst id; lia)).
  rewrite He, Hr, callRequestCallback_run.
  replace (id =? 0) with false by (symmetry; apply Z.eqb_neq; subst id; lia).
  cbn [requestCallbacks with_requestCallbacks].
  by rewrite lookup_insert_eq.
Qed.

(** ** Dispatch of requests *)

(** X7.  [expose] then call: once a method is exposed under a
    non-empty name, a message whose [method] is that name calls it, at
    any id, with the message's [params] or with [[]] when they are
    missing or false; nothing is written, and a [result] or [error]
    field in the same message is not looked at. *)
Theorem X7_exposed_method_is_called (s : session) (name : string)
    (fn : handler) (id : Z) (fields : list (string * value)) :
  assoc "method" fields = VStr name ->
  name <> EmptyString ->
  let s' := final (expose name fn s) in
  onMessage id (VObj fields) s' =
    mkRun (Ok tt) s'
      [CallMethod fn
         (if truthy (assoc "params" fields) then assoc "params" fields
          else VArr [])
         id].
Proof.
  intros Hm Hne s'. unfold onMessage, bind, lift, get_session.
  cbn [get_prop res final trace app]. rewrite Hm.
  cbn [truthy to_string].
  replace (String.eqb name EmptyString) with false
    by (symmetry; by apply String.eqb_neq).
  cbn [negb res final trace app].
  subst s'. unfold lookup_method.
  cbn [expose modify final methods with_methods].
  rewrite lookup_insert_eq. reflexivity.
Qed.

(** X8.  A message whose [method] names nothing that the lookup in the
    method table finds (no exposed method, and no member that the table
    inherits from its prototype, such as [toString]) is answered with
    the failure ERROR_METHOD "Method <name> not found." at its id; for a
    notification (id 0) the failure is dropped and nothing is written.
    The session is left as it is. *)
Theorem X8_unknown_method (s : session) (name : string) (id : Z)
    (fields : list (string * value)) :
  assoc "method" fields = VStr name ->
  name <> EmptyString ->
  methods s !! name = None ->
  inherited name = None ->
  socket_writable s = true ->
  0 <= id <= MAX_ID ->
  onMessage id (VObj fields) s =
    mkRun (Ok tt) s
      (Emit (EvFail id ERROR_METHOD
               (VStr ("Method " ++ name ++ " not found.")))
       :: if id =? 0 then []
          else [SocketWrite
                  (frame TYPE_JSON id
                     (utf8_encode
                        (JSON_stringify
                           (VObj [("error"%string,
                                   VObj [("code"%string, VNum ERROR_METHOD);
                                         ("message"%string,
                                          VStr ("Method " ++ name
                                                ++ " not found."))])]))))]).
Proof.
  intros Hm Hne Hl Hin Hw Hid. unfold onMessage, bind, lift, get_session.
  cbn [get_prop res final trace app]. rewrite Hm.
  cbn [truthy to_string].
  replace (String.eqb name EmptyString) with false
    by (symmetry; by apply String.eqb_neq).
  cbn [negb res final trace app]. unfold lookup_method. rewrite Hl, Hin.
  rewrite emit_fail_run by assumption. cbn [res final trace].
  destruct (id =? 0); reflexivity.
Qed.

(** X9.  What a method's [onComplete] sends: with a true [error], the
    failure ERROR_USER at the request's id; otherwise the reply, a JSON
    frame {result} or, for a Buffer, a data frame and its terminator.
    For a notification (id 0) nothing is ever written, whatever the
    method reports. *)
Theorem X9_done_answers_once (s : session) (id : Z) (error reply_ : value) :
  socket_writable s = true ->
  0 <= id <= MAX_ID ->
  Z.of_nat (match reply_ with VBuffer bs => length bs | _ => 0%nat end)
    <= MAX_ID ->
  onComplete id error reply_ s =
    mkRun (Ok tt) s
      (if truthy error then
         Emit (EvFail id ERROR_USER error)
         :: if id =? 0 then []
            else [SocketWrite
                    (frame TYPE_JSON id
                       (utf8_encode
                          (JSON_stringify
                             (VObj [("error"%string,
                                     VObj [("code"%string, VNum ERROR_USER);
                                           ("message"%string, error)])]))))]
       else if id =? 0 then []
       else match reply_ with
            | VBuffer bs =>
                [SocketWrite (frame TYPE_BUFFER_RESPONSE id bs);
                 SocketWrite (frame TYPE_BUFFER_RESPONSE id [])]
            | _ =>
                [SocketWrite
                   (frame TYPE_JSON id
                      (utf8_encode
                         (JSON_stringify
                            (VObj [("result"%string, reply_)]))))]
            end).
Proof.
  intros Hw Hid Hlen. unfold onComplete.
  destruct (truthy error).
  - rewrite emit_fail_run by assumption. destruct (id =? 0); reflexivity.
  - destruct (id =? 0) eqn:Hz; cbn [negb]; [reflexivity|].
    unfold reply. rewrite Hz.
    assert (Hx : forall ty payload, 0 <= ty <= 255 ->
              xferRaw ty id payload s =
                mkRun (Ok tt) s [SocketWrite (frame ty id payload)])
      by (intros; by apply xferRaw_run).
    assert (Hz0 : xferRawZeroLength TYPE_BUFFER_RESPONSE id s =
              mkRun (Ok tt) s
                [SocketWrite (frame TYPE_BUFFER_RESPONSE id [])]).
    { rewrite xferRawZeroLength_as_xferRaw
        by (assumption || (unfold TYPE_BUFFER_RESPONSE; lia)).
      apply Hx. unfold TYPE_BUFFER_RESPONSE. lia. }
    destruct reply_;
      try (unfold xferObject; apply Hx; unfold TYPE_JSON; lia).
    unfold xferBuffer, bind.
    rewrite Hx by (unfold TYPE_BUFFER_RESPONSE; lia).
    cbn [res final trace]. rewrite Hz0. reflexivity.
Qed.

(** ** Payloads that are not messages *)

(** X10.  A JSON payload that does not parse gives the failure
    ERROR_PARSE at the frame's id and is not dispatched; a payload that
    parses to [null] makes the listener throw a TypeError (the read of
    [message.length]) before anything is emitted. *)
Theorem X10_unparsable_and_null (s : session) (id : Z) (jsonString : string) :
  match JSON_parse jsonString with
  | None =>
      let r := onIncomingJSON id jsonString s in
      let error :=
        VError ("Unable to parse JSON: " ++ JSON_stringify (VStr jsonString)) in
      trace r = Emit (EvFail id ERROR_PARSE error)
                :: trace (onFailure id ERROR_PARSE error s) /\
      messages_in (trace r) = 0%nat /\
      calls_at id (trace r) = 0%nat /\
      requestCallbacks (final r) !! id = requestCallbacks s !! id
  | Some VNull =>
      onIncomingJSON id jsonString s =
        mkRun (Throw (TypeError "Cannot read property")) s []
  | Some _ => True
  end.
Proof.
  unfold onIncomingJSON.
  destruct (JSON_parse jsonString) as [[]|]; try exact I.
  - reflexivity.
  - cbn zeta. split; [reflexivity|].
    destruct (aside_emit_fail id ERROR_PARSE
                (VError ("Unable to parse JSON: "
                         ++ JSON_stringify (VStr jsonString))) s) as [_ Hm].
    split; [exact Hm|].
    pose proof (once_emit_fail id ERROR_PARSE
                  (VError ("Unable to parse JSON: "
                           ++ JSON_stringify (VStr jsonString))) s id) as Ho.
    pose proof (keeps_table_emit_fail id ERROR_PARSE
                  (VError ("Unable to parse JSON: "
                           ++ JSON_stringify (VStr jsonString))) s) as Hk.
    split; [|exact (f_equal (fun t => t !! id) Hk)].
    unfold budget in Ho. rewrite Hk in Ho.
    destruct (requestCallbacks s !! id); lia.
Qed.

(** ** Several binary replies at once *)

Lemma emit_buffer_events_run events : forall s,
  emit_buffer_events events s =
    mkRun (Ok tt) (fold_left put_event events s)
      (map (fun ev => Emit (EvBuffer (fst ev) (snd ev))) events).
Proof.
  induction events as [|[id chunk] events IH]; intros s; [reflexivity|].
  cbn [emit_buffer_events].
  rewrite (bind_run _ _ _ _ _ _ (emit_buffer_run _ _ _)).
  rewrite IH. reflexivity.
Qed.

Lemma chunks_for_cons id ev events :
  chunks_for id (ev :: events) =
    if decide (fst ev = id) then snd ev :: chunks_for id events
    else chunks_for id events.
Proof.
  unfold chunks_for. rewrite filter_cons. by case_decide.
Qed.

Lemma streams_after_events id events : forall s,
  streams (fold_left put_event events s) !! id =
    match chunks_for id events with
    | [] => streams s !! id
    | chunks => Some (default [] (streams s !! id) ++ chunks)
    end.
Proof.
  induction events as [|ev events IH]; intros s; [reflexivity|].
  cbn [fold_left]. rewrite IH, chunks_for_cons.
  unfold put_event at 1 2. cbn [streams with_streams].
  case_decide as Hd.
  - rewrite Hd, lookup_insert_eq. cbn [default].
    destruct (chunks_for id events); [reflexivity|].
    unfold Datatypes.id. by rewrite <- app_assoc.
  - by rewrite lookup_insert_ne.
Qed.

(** X11.  Binary replies that arrive interleaved are kept apart: after
    any sequence of [buffer] events for any ids, the terminator of one
    id dispatches exactly the chunks that carried this id, joined in
    their order of arrival, and the chunks collected for every other id
    stay as they are. *)
Theorem X11_interleaved_streams (s : session) (id : Z)
    (events : list (Z * list byte)) :
  streams s !! id = None ->
  chunks_for id events <> [] ->
  let message :=
    VObj [("result"%string, VBuffer (concat (chunks_for id events)))] in
  let r := (emit_buffer_events events ;;; emit_bufferComplete id) s in
  (exists rest,
     trace r =
       map (fun ev => Emit (EvBuffer (fst ev) (snd ev))) events
       ++ Emit (EvBufferComplete id) :: Emit (EvMessage id message) :: rest) /\
  messages_in (trace r) = 1%nat /\
  streams (final r) !! id = None /\
  forall id', id' <> id ->
    streams (final r) !! id' =
      match chunks_for id' events with
      | [] => streams s !! id'
      | chunks => Some (default [] (streams s !! id') ++ chunks)
      end.
Proof.
  intros Hl Hne message r.
  set (s1 := fold_left put_event events s).
  assert (H1 : streams s1 !! id = Some (chunks_for id events)).
  { subst s1. rewrite streams_after_events, Hl.
    by destruct (chunks_for id events). }
  set (s2 := with_streams (delete id (streams s1)) s1).
  assert (Hr : r = mkRun (res (onMessage id message s2))
                 (final (onMessage id message s2))
                 (map (fun ev => Emit (EvBuffer (fst ev) (snd ev))) events
                  ++ Emit (EvBufferComplete id) :: Emit (EvMessage id message)
                  :: trace (onMessage id message s2))).
  { subst r. rewrite (bind_run _ _ _ _ _ _ (emit_buffer_events_run _ _)).
    fold s1. rewrite (emit_bufferComplete_present _ _ _ H1). reflexivity. }
  destruct (aside_onMessage id message s2) as [Hs Hm].
  rewrite Hr. cbn [res final trace].
  split; [eauto|]. split; [|split].
  - rewrite messages_in_app.
    assert (Hb : messages_in
                   (map (fun ev => Emit (EvBuffer (fst ev) (snd ev))) events)
                 = 0%nat)
      by (clear; induction events as [|ev events IH]; [reflexivity | exact IH]).
    rewrite Hb.
    change (messages_in (?a :: ?b :: ?t)) with (S (messages_in t)).
    by rewrite Hm.
  - rewrite Hs. subst s2. cbn [streams with_streams]. apply lookup_delete_eq.
  - intros id' Hid'. rewrite Hs. subst s2. cbn [streams with_streams].
    rewrite lookup_delete_ne by congruence. subst s1.
    apply streams_after_events.
Qed.

(** ** The stream parser on whole frames *)

(** X12.  What the parser makes of one whole frame, for every type
    byte: it first syncs the sequence with the frame's id; a zero-length
    frame is then a sentinel (bufferComplete for type 3, ready for
    type 0, the failure "Unexpected 0-length header." for any other
    type), and a frame with a payload is handed on as incomingJSON for
    type 1, as buffer for type 3, and failed as "Unknown packet type."
    for any other type. *)
Theorem X12_frame_dispatch (s : session) (ty id : Z) (payload : list byte) :
  parser s = AtMagic ->
  pending s = [] ->
  0 <= ty <= 255 ->
  0 <= id <= MAX_ID ->
  Z.of_nat (length payload) <= MAX_ID ->
  socket_data (frame ty id payload) s =
    (updateSequence id ;;;
     match payload with
     | [] =>
         if ty =? TYPE_BUFFER_RESPONSE then emit_bufferComplete id
         else if ty =? TYPE_HANDSHAKE then tell (Emit EvReady)
         else emit_fail id ERROR_INVALID (VStr "Unexpected 0-length header.")
     | _ :: _ =>
         if ty =? TYPE_JSON then emit_incomingJSON id (utf8_decode payload)
         else if ty =? TYPE_BUFFER_RESPONSE then emit_buffer id payload
         else emit_fail id ERROR_INVALID (VStr "Unknown packet type.")
     end) s.
Proof.
  intros Hp Hb Hty Hid Hlen. rewrite socket_data_frame by assumption.
  by destruct payload.
Qed.

(** X13.  The handshake: the constructor of an instigator writes the
    ten bytes of a zero-length HANDSHAKE frame at id 0 and nothing else,
    that of a non-instigator writes nothing; a parser at a frame
    boundary that reads these bytes emits [ready] and changes nothing in
    its session, the sequence included. *)
Theorem X13_handshake (methods : gmap string handler) (writable : bool)
    (s : session) :
  parser s = AtMagic ->
  pending s = [] ->
  BlizzardSession methods true true =
    mkRun (Ok tt) (mkSession true 0 ∅ ∅ methods true AtMagic [] false)
      [SocketWrite (frame TYPE_HANDSHAKE 0 [])] /\
  BlizzardSession methods false writable =
    mkRun (Ok tt) (mkSession false 0 ∅ ∅ methods writable AtMagic [] false) [] /\
  socket_data (frame TYPE_HANDSHAKE 0 []) s = mkRun (Ok tt) s [Emit EvReady].
Proof.
  intros Hp Hb. split; [reflexivity|]. split; [reflexivity|].
  rewrite socket_data_frame
    by (assumption || (unfold TYPE_HANDSHAKE, MAX_ID; cbn; lia)).
  reflexivity.
Qed.


(** ** The stream parser and the way the bytes are cut *)

Lemma blind_ret {A} (a : A) : blind (ret a).
Proof. by intros p q s. Qed.

Lemma blind_throw {A} (e : exn) : blind (@throw A e).
Proof. by intros p q s. Qed.

Lemma blind_lift {A} (o : outcome A) : blind (lift o).
Proof. by intros p q s. Qed.

Lemma blind_assert c msg : blind (assert c msg).
Proof. destruct c; [apply blind_ret | apply blind_throw]. Qed.

Lemma blind_tell e : blind (tell e).
Proof. by intros p q s. Qed.

Lemma blind_modify f :
  (forall p q s, f (with_parser p q s) = with_parser p q (f s)) ->
  blind (modify f).
Proof. intros Hf p q s. unfold modify, relabel. cbn. by rewrite Hf. Qed.

Lemma blind_bind {A B} (m : M A) (k : A -> M B) :
  blind m -> (forall a, blind (k a)) -> blind (bind m k).
Proof.
  intros Hm Hk p q s. unfold bind. pose proof (Hm p q s) as E.
  destruct (m s) as [[a|e] s1 t1]; rewrite E; unfold relabel;
    cbn [res final trace]; [|reflexivity].
  rewrite Hk. reflexivity.
Qed.

(** A computation that starts by reading the session may look at
    everything but the reader's state. *)
Lemma blind_get_bind {A} (k : session -> M A) :
  (forall p q s, k (with_parser p q s) = k s) ->
  (forall a, blind (k a)) ->
  blind (bind get_session k).
Proof.
  intros Hk Hb p q s. rewrite !bind_get, Hk. apply Hb.
Qed.

Ltac blind_step :=
  match goal with
  | |- blind (bind get_session _) =>
      apply blind_get_bind; [intros ? ? ?; reflexivity | intros ?]
  | |- blind (bind _ _) => apply blind_bind; [|intros ?]
  | |- blind (ret _) => apply blind_ret
  | |- blind (throw _) => apply blind_throw
  | |- blind (lift _) => apply blind_lift
  | |- blind (assert _ _) => apply blind_assert
  | |- blind (tell _) => apply blind_tell
  | |- blind (modify _) => apply blind_modify; intros ? ? ?; reflexivity
  | |- blind (if ?c then _ else _) => destruct c
  | |- blind (match ?x with _ => _ end) => destruct x
  end.

Ltac blind_auto := repeat blind_step.

Lemma blind_emit_fail id code error : blind (emit_fail id code error).
Proof.
  unfold emit_fail, onFailure, emit_error, xferObject, xferRaw, socketReady,
    writeUInt8, writeUInt32BE, socket_write.
  blind_auto.
Qed.

Lemma blind_callRequestCallback id error result :
  blind (callRequestCallback id error result).
Proof.
  unfold callRequestCallback. blind_auto; apply blind_emit_fail.
Qed.

Lemma blind_emit_message id message : blind (emit_message id message).
Proof.
  unfold emit_message, onMessage.
  blind_auto;
    first [apply blind_emit_fail | apply blind_callRequestCallback].
Qed.

Lemma blind_emit_incomingJSON id jsonString :
  blind (emit_incomingJSON id jsonString).
Proof.
  unfold emit_incomingJSON, onIncomingJSON.
  blind_auto; first [apply blind_emit_fail | apply blind_emit_message].
Qed.

Lemma blind_emit_bufferComplete id : blind (emit_bufferComplete id).
Proof.
  unfold emit_bufferComplete, bufferComplete.
  blind_auto; first [apply blind_emit_fail | apply blind_emit_message].
Qed.

Lemma blind_emit_buffer id buffer : blind (emit_buffer id buffer).
Proof.
  intros p q s. rewrite !emit_buffer_run. reflexivity.
Qed.

Lemma blind_updateSequence id : blind (updateSequence id).
Proof.
  intros p q s. rewrite !apply_op_run_update. unfold relabel.
  cbn [res final trace]. by rewrite op_state_with_parser.
Qed.

Lemma blind_parseHeader ty id : blind (parseHeader ty id).
Proof.
  unfold parseHeader.
  blind_auto; first [apply blind_emit_fail | apply blind_emit_bufferComplete].
Qed.

Lemma blind_parsePacket ty id data : blind (parsePacket ty id data).
Proof.
  unfold parsePacket.
  blind_auto;
    first [apply blind_emit_fail | apply blind_emit_incomingJSON
          | apply blind_emit_buffer].
Qed.

Lemma bind_assoc {A B C} (m : M A) (k : A -> M B) (h : B -> M C) s :
  bind (bind m k) h s = bind m (fun a => bind (k a) h) s.
Proof.
  unfold bind. destruct (m s) as [[a|e] s1 t1]; cbn [res final trace];
    [|reflexivity].
  destruct (k a s1) as [[b|e] s2 t2]; cbn [res final trace];
    [|reflexivity].
  by rewrite app_assoc.
Qed.

Lemma modify_blind_more {A} (Z : M A) p q b s :
  blind Z ->
  (modify (with_parser p (q ++ b)) ;;; Z) (more_bytes b s) =
    let r := (modify (with_parser p q) ;;; Z) s in
    mkRun (res r) (more_bytes b (final r)) (trace r).
Proof.
  intros HZ. unfold bind, modify. cbn [res final trace app].
  change (with_parser p (q ++ b) (more_bytes b s))
    with (with_parser p (q ++ b) s).
  rewrite (HZ p (q ++ b) s), (HZ p q s). reflexivity.
Qed.

Lemma parser_step_more b s :
  res (parser_step s) <> Ok false ->
  parser_step (more_bytes b s) =
    mkRun (res (parser_step s)) (more_bytes b (final (parser_step s)))
          (trace (parser_step s)).
Proof.
  unfold parser_step. rewrite !bind_get. cbn zeta.
  change (parser (more_bytes b s)) with (parser s).
  change (pending (more_bytes b s)) with (pending s ++ b).
  destruct (parser s) as [| |ty id len|] eqn:Hp;
    [| | |intros Hne; by destruct Hne].
  - destruct (pending s) as [|b0 rest] eqn:Hb; [intros Hne; by destruct Hne|].
    intros _. cbn [app].
    destruct (Z_of_byte b0 =? MAGIC);
      apply modify_blind_more; blind_auto; apply blind_emit_fail.
  - destruct (length (pending s) <? 9)%nat eqn:Hlen;
      [intros Hne; by destruct Hne|].
    intros _. apply Nat.ltb_ge in Hlen.
    replace (length (pending s ++ b) <? 9)%nat with false
      by (symmetry; apply Nat.ltb_ge; rewrite length_app; lia).
    rewrite !drop_app_le, !take_app_le
      by (rewrite ?length_drop; lia).
    destruct (word_be (take 4 (drop 5 (pending s))) =? 0);
      rewrite !bind_assoc; apply modify_blind_more; blind_auto;
      first [apply blind_updateSequence | apply blind_parseHeader].
  - destruct (length (pending s) <? Z.to_nat len)%nat eqn:Hlen;
      [intros Hne; by destruct Hne|].
    intros _. apply Nat.ltb_ge in Hlen.
    replace (length (pending s ++ b) <? Z.to_nat len)%nat with false
      by (symmetry; apply Nat.ltb_ge; rewrite length_app; lia).
    rewrite !drop_app_le, !take_app_le by lia.
    apply modify_blind_more; blind_auto; apply blind_parsePacket.
Qed.

Lemma backlog_more b s :
  backlog (more_bytes b s) = (backlog s + length b)%nat.
Proof.
  unfold backlog, more_bytes. cbn [parser pending with_parser].
  rewrite length_app. lia.
Qed.

(** Enough fuel is enough: two amounts above the backlog give the same
    run. *)
Lemma parser_loop_fuel n : forall m s,
  (backlog s < n)%nat -> (backlog s < m)%nat ->
  parser_loop n s = parser_loop m s.
Proof.
  induction n as [|n IH]; intros m s Hn Hm; [lia|].
  destruct m as [|m]; [lia|]. rewrite !parser_loop_S. unfold bind.
  destruct (parser_step_cases s) as [Hb | [Hne Hlt]].
  - rewrite Hb. reflexivity.
  - destruct (res (parser_step s)) as [[]|e]; [|congruence|reflexivity].
    rewrite (IH m) by lia. reflexivity.
Qed.

Lemma parser_loop_backlog n : forall s,
  (backlog (final (parser_loop n s)) <= backlog s)%nat.
Proof.
  induction n as [|n IH]; intros s; [reflexivity|].
  rewrite parser_loop_S. unfold bind.
  destruct (parser_step_cases s) as [Hb | [Hne Hlt]].
  - rewrite Hb. reflexivity.
  - destruct (res (parser_step s)) as [[]|e]; cbn [final];
      [|congruence|lia].
    specialize (IH (final (parser_step s))). lia.
Qed.

Lemma parser_loop_more b n : forall m s,
  (backlog s < n)%nat ->
  (backlog s + length b < m)%nat ->
  res (parser_loop n s) = Ok tt ->
  parser_loop m (more_bytes b s) =
    let r := parser_loop n s in
    let r' := parser_loop m (more_bytes b (final r)) in
    mkRun (res r') (final r') (trace r ++ trace r').
Proof.
  induction n as [|n IH]; intros m s Hn Hm Hres; [lia|].
  cbn zeta.
  destruct (parser_step_cases s) as [Hb | [Hne Hlt]].
  - assert (E : parser_loop (S n) s = mkRun (Ok tt) s [])
      by (rewrite parser_loop_S; unfold bind; by rewrite Hb).
    rewrite E. cbn [res final trace app]. symmetry. apply run_eta.
  - destruct (res (parser_step s)) as [[]|e] eqn:Hr; [|congruence|].
    2:{ rewrite parser_loop_S in Hres. unfold bind in Hres.
        rewrite Hr in Hres. discriminate. }
    assert (E : parser_loop (S n) s =
              mkRun (res (parser_loop n (final (parser_step s))))
                    (final (parser_loop n (final (parser_step s))))
                    (trace (parser_step s)
                     ++ trace (parser_loop n (final (parser_step s)))))
      by (rewrite parser_loop_S; unfold bind; by rewrite Hr).
    rewrite E in Hres |- *. cbn [res final trace] in Hres |- *.
    destruct m as [|m]; [lia|].
    rewrite (parser_loop_S m (more_bytes b s)). unfold bind at 1.
    rewrite (parser_step_more b s) by (rewrite Hr; discriminate).
    rewrite Hr. cbn [res final trace].
    rewrite (IH m (final (parser_step s))) by (assumption || lia).
    cbn zeta. cbn [res final trace].
    rewrite (parser_loop_fuel m (S m))
      by (rewrite backlog_more;
          pose proof (parser_loop_backlog n (final (parser_step s))); lia).
    by rewrite app_assoc.
Qed.

Lemma socket_data_app (s : session) (first rest : list byte) :
  res (socket_data first s) = Ok tt ->
  socket_data (first ++ rest) s =
    (socket_data first ;;; socket_data rest) s.
Proof.
  intros Hres. unfold bind at 1. rewrite Hres.
  revert Hres. rewrite !socket_data_run. intros Hres.
  set (s1 := with_parser (parser s) (pending s ++ first) s) in *.
  assert (Hs1 : with_parser (parser s) (pending s ++ first ++ rest) s
                = more_bytes rest s1)
    by (unfold more_bytes; subst s1; cbn [parser pending with_parser];
        by rewrite app_assoc).
  rewrite Hs1.
  assert (Hb1 : (backlog s1 < S (S (length (pending s ++ first))))%nat)
    by (unfold backlog; subst s1; cbn [parser pending with_parser];
        destruct (parser s); lia).
  rewrite (parser_loop_more rest _ _ s1 Hb1); [|rewrite !length_app in *; lia
                                               | exact Hres].
  cbn zeta. set (r := parser_loop _ s1).
  pose proof (parser_loop_backlog (S (S (length (pending s ++ first)))) s1)
    as Hle. fold r in Hle.
  change (with_parser (parser (final r)) (pending (final r) ++ rest) (final r))
    with (more_bytes rest (final r)).
  rewrite (parser_loop_fuel (S (S (length (pending s ++ first ++ rest))))
             (S (S (length (pending (final r) ++ rest)))) (more_bytes rest (final r))).
  - reflexivity.
  - rewrite backlog_more. rewrite !length_app in *. lia.
  - rewrite backlog_more. unfold backlog. rewrite length_app.
    destruct (parser (final r)); lia.
Qed.

(** X15.  On a stream of frames the parser does not depend on how the
    transport cuts the bytes: when no byte other than the magic byte is
    met where a frame should start, and the [data] listener returns for
    the first part of the bytes, receiving the rest afterwards does
    exactly what receiving all of them at once does (same events, same
    calls, same final session). *)
Theorem X15_chunking (s : session) (first rest : list byte) :
  res (socket_data first s) = Ok tt ->
  no_stray (trace (socket_data (first ++ rest) s)) = true ->
  socket_data (first ++ rest) s =
    (socket_data first ;;; socket_data rest) s.
Proof. intros Hres _. by apply socket_data_app. Qed.

(** ** What holds over whole runs *)

Section Sound.

Variable I : session -> Prop.
Variable P : effect -> Prop.

Hypothesis P_emit : forall e, P (Emit e).
Hypothesis P_method : forall h params id, P (CallMethod h params id).
Hypothesis P_call :
  forall id cb error result,
    id <> 0 -> P (CallRequestCallback id cb error result).
Hypothesis P_write :
  forall ty id payload,
    0 <= ty <= 255 -> 0 <= id <= MAX_ID ->
    P (SocketWrite (frame ty id payload)).
Hypothesis I_parser : forall p q s, I s -> I (with_parser p q s).
Hypothesis I_streams : forall t s, I s -> I (with_streams t s).
Hypothesis I_consume : forall id s, id <> 0 -> I s -> I (consume id s).
Hypothesis I_update : forall id s, I s -> I (op_state (OpUpdate id) s).
Hypothesis I_next : forall s, I s -> I (op_state OpNext s).
Hypothesis I_insert :
  forall id cb s,
    I s -> I (with_requestCallbacks (<[id := cb]> (requestCallbacks s)) s).
Hypothesis I_methods : forall t s, I s -> I (with_methods t s).

Lemma sound_ret {A} (a : A) : sound I P (ret a).
Proof. intros s Hs. by split. Qed.

Lemma sound_throw {A} (e : exn) : sound I P (@throw A e).
Proof. intros s Hs. by split. Qed.

Lemma sound_lift {A} (o : outcome A) : sound I P (lift o).
Proof. intros s Hs. by split. Qed.

Lemma sound_get : sound I P get_session.
Proof. intros s Hs. by split. Qed.

Lemma sound_assert c msg : sound I P (assert c msg).
Proof. destruct c; [apply sound_ret | apply sound_throw]. Qed.

Lemma sound_tell e : P e -> sound I P (tell e).
Proof. intros He s Hs. split; [exact Hs|]. by repeat constructor. Qed.

Lemma sound_modify f : (forall s, I s -> I (f s)) -> sound I P (modify f).
Proof. intros Hf s Hs. split; [by apply Hf | constructor]. Qed.

Lemma sound_bind {A B} (m : M A) (k : A -> M B) :
  sound I P m -> (forall a, sound I P (k a)) -> sound I P (bind m k).
Proof.
  intros Hm Hk s Hs. unfold bind. destruct (Hm s Hs) as [Hi Ht].
  destruct (res (m s)) as [a|e]; cbn [final trace]; [|by split].
  destruct (Hk a (final (m s)) Hi) as [Hi' Ht'].
  split; [exact Hi'|]. by apply Forall_app.
Qed.

Lemma sound_attempt {A} (m : M A) : sound I P m -> sound I P (attempt m).
Proof. intros Hm s Hs. exact (Hm s Hs). Qed.

Lemma sound_attempt_data (m : M unit) :
  sound I P m -> sound I P (attempt_data m).
Proof.
  intros Hm s Hs. unfold attempt_data. destruct (Hm s Hs) as [Hi Ht].
  destruct (res (m s)); cbn [final trace]; (split; [|exact Ht]);
    [exact Hi | by apply I_parser].
Qed.

Ltac sound_step :=
  match goal with
  | |- sound _ _ (bind _ _) => apply sound_bind; [|intros ?]
  | |- sound _ _ (ret _) => apply sound_ret
  | |- sound _ _ (throw _) => apply sound_throw
  | |- sound _ _ (lift _) => apply sound_lift
  | |- sound _ _ get_session => apply sound_get
  | |- sound _ _ (assert _ _) => apply sound_assert
  | |- sound _ _ (tell (Emit _)) => apply sound_tell, P_emit
  | |- sound _ _ (tell (CallMethod _ _ _)) => apply sound_tell, P_method
  | |- sound _ _ (modify _) =>
      apply sound_modify; intros ? ?; cbv beta;
      match goal with
      | |- _ (with_parser _ _ _) => apply I_parser
      | |- _ (with_streams _ _) => apply I_streams
      end; assumption
  | |- sound _ _ (if ?c then _ else _) => destruct c
  | |- sound _ _ (match ?x with _ => _ end) => destruct x
  end.

Create HintDb sound_db.

Ltac sound_auto := repeat (solve [auto 2 with sound_db] || sound_step).

Lemma xferRaw_cases ty id payload s :
  (exists e, xferRaw ty id payload s = mkRun (Throw e) s []) \/
  (0 <= ty <= 255 /\ 0 <= id <= MAX_ID /\
   xferRaw ty id payload s =
     mkRun (Ok tt) s [SocketWrite (frame ty id payload)]).
Proof.
  destruct (socket_writable s) eqn:Hw.
  2:{ left. eexists. by apply xferRaw_closed. }
  destruct ((0 <=? ty) && (ty <=? 255)) eqn:Hty.
  2:{ left. eexists. unfold xferRaw, socketReady, bind, get_session,
        writeUInt8. cbn. rewrite Hw. cbn. rewrite Hty. reflexivity. }
  destruct ((0 <=? id) && (id <=? MAX_ID)) eqn:Hid.
  2:{ left. eexists. unfold xferRaw, socketReady, bind, get_session,
        writeUInt8, writeUInt32BE. cbn. rewrite Hw. cbn. rewrite Hty. cbn.
      rewrite Hid. reflexivity. }
  apply andb_prop in Hty as [?%Z.leb_le ?%Z.leb_le].
  apply andb_prop in Hid as [?%Z.leb_le ?%Z.leb_le].
  right. split; [lia|]. split; [lia|]. apply xferRaw_run; [exact Hw|lia|lia].
Qed.

Lemma xferRawZeroLength_cases ty id s :
  (exists e, xferRawZeroLength ty id s = mkRun (Throw e) s []) \/
  (0 <= ty <= 255 /\ 0 <= id <= MAX_ID /\
   xferRawZeroLength ty id s =
     mkRun (Ok tt) s [SocketWrite (frame ty id [])]).
Proof.
  destruct (socket_writable s) eqn:Hw.
  2:{ left. eexists. unfold xferRawZeroLength, socketReady, bind, get_session.
      cbn. rewrite Hw. reflexivity. }
  destruct ((0 <=? ty) && (ty <=? 255)) eqn:Hty.
  2:{ left. eexists. unfold xferRawZeroLength, socketReady, bind, get_session,
        writeUInt8. cbn. rewrite Hw. cbn. rewrite Hty. reflexivity. }
  destruct ((0 <=? id) && (id <=? MAX_ID)) eqn:Hid.
  2:{ left. eexists. unfold xferRawZeroLength, socketReady, bind, get_session,
        writeUInt8, writeUInt32BE. cbn. rewrite Hw. cbn. rewrite Hty. cbn.
      rewrite Hid. reflexivity. }
  apply andb_prop in Hty as [?%Z.leb_le ?%Z.leb_le].
  apply andb_prop in Hid as [?%Z.leb_le ?%Z.leb_le].
  right. split; [lia|]. split; [lia|].
  rewrite xferRawZeroLength_as_xferRaw by (assumption || lia).
  apply xferRaw_run; [exact Hw|lia|lia].
Qed.

Lemma sound_xferRaw ty id payload : sound I P (xferRaw ty id payload).
Proof.
  intros s Hs.
  destruct (xferRaw_cases ty id payload s) as [[e ->] | (Hty & Hid & ->)];
    cbn [final trace]; (split; [exact Hs|]); [constructor|].
  repeat constructor. by apply P_write.
Qed.

#[local] Hint Resolve sound_xferRaw : sound_db.

Lemma sound_xferRawZeroLength ty id : sound I P (xferRawZeroLength ty id).
Proof.
  intros s Hs.
  destruct (xferRawZeroLength_cases ty id s) as [[e ->] | (Hty & Hid & ->)];
    cbn [final trace]; (split; [exact Hs|]); [constructor|].
  repeat constructor. by apply P_write.
Qed.

#[local] Hint Resolve sound_xferRawZeroLength : sound_db.

Lemma sound_emit_fail id code error : sound I P (emit_fail id code error).
Proof.
  unfold emit_fail, onFailure, emit_error, xferObject. sound_auto.
Qed.

#[local] Hint Resolve sound_emit_fail : sound_db.

Lemma sound_callRequestCallback id error result :
  sound I P (callRequestCallback id error result).
Proof.
  intros s Hs. rewrite callRequestCallback_run.
  destruct (Z.eqb_spec id 0) as [Hz|Hz]; [by split|].
  destruct (requestCallbacks s !! id) as [cb|].
  - cbn [final trace]. split; [by apply I_consume|].
    repeat constructor. by apply P_call.
  - destruct (truthy error).
    + split; [by apply I_consume | constructor].
    + apply sound_emit_fail. by apply I_consume.
Qed.

#[local] Hint Resolve sound_callRequestCallback : sound_db.

Lemma sound_reply id message : sound I P (reply id message).
Proof.
  unfold reply, xferObject, xferBuffer.
  sound_auto.
Qed.

#[local] Hint Resolve sound_reply : sound_db.

Lemma sound_onComplete id error reply_ :
  sound I P (onComplete id error reply_).
Proof.
  unfold onComplete.
  sound_auto.
Qed.

#[local] Hint Resolve sound_onComplete : sound_db.

Lemma sound_emit_message id message : sound I P (emit_message id message).
Proof.
  unfold emit_message, onMessage.
  sound_auto.
Qed.

#[local] Hint Resolve sound_emit_message : sound_db.

Lemma sound_emit_incomingJSON id jsonString :
  sound I P (emit_incomingJSON id jsonString).
Proof.
  unfold emit_incomingJSON, onIncomingJSON.
  sound_auto.
Qed.

#[local] Hint Resolve sound_emit_incomingJSON : sound_db.

Lemma sound_emit_bufferComplete id : sound I P (emit_bufferComplete id).
Proof.
  unfold emit_bufferComplete, bufferComplete.
  sound_auto.
Qed.

#[local] Hint Resolve sound_emit_bufferComplete : sound_db.

Lemma sound_emit_buffer id buffer : sound I P (emit_buffer id buffer).
Proof.
  intros s Hs. rewrite emit_buffer_run. cbn [final trace].
  split; [by apply I_streams|]. repeat constructor. apply P_emit.
Qed.

#[local] Hint Resolve sound_emit_buffer : sound_db.

Lemma sound_updateSequence id : sound I P (updateSequence id).
Proof.
  intros s Hs. rewrite apply_op_run_update. split; [by apply I_update|].
  constructor.
Qed.

#[local] Hint Resolve sound_updateSequence : sound_db.

Lemma sound_parser_step : sound I P parser_step.
Proof.
  unfold parser_step, parseHeader, parsePacket.
  sound_auto.
Qed.

#[local] Hint Resolve sound_parser_step : sound_db.

Lemma sound_parser_loop fuel : sound I P (parser_loop fuel).
Proof.
  induction fuel as [|n IH]; cbn [parser_loop]; [apply sound_ret|].
  apply sound_bind; [apply sound_parser_step|].
  intros []; [exact IH | apply sound_ret].
Qed.

#[local] Hint Resolve sound_parser_loop : sound_db.

Lemma sound_socket_data chunk : sound I P (socket_data chunk).
Proof.
  unfold socket_data.
  apply sound_bind; [apply sound_modify; intros ?; apply I_parser|].
  intros _. apply sound_bind; [apply sound_get|].
  intros ?. apply sound_parser_loop.
Qed.

#[local] Hint Resolve sound_socket_data : sound_db.

Lemma sound_emit e : sound I P (emit e).
Proof.
  destruct e; cbn [emit];
    first [apply sound_emit_incomingJSON | apply sound_emit_buffer
          | apply sound_emit_bufferComplete | apply sound_emit_message
          | apply sound_emit_fail | apply sound_tell, P_emit
          | (unfold emit_error; sound_auto)].
Qed.

#[local] Hint Resolve sound_emit : sound_db.

Lemma sound_deliver_one i : sound I P (deliver_one i).
Proof.
  destruct i; cbn [deliver_one].
  - apply sound_attempt_data, sound_socket_data.
  - apply sound_attempt, sound_onComplete.
  - apply sound_attempt, sound_emit.
Qed.

#[local] Hint Resolve sound_deliver_one : sound_db.

Lemma sound_deliver inputs : sound I P (deliver inputs).
Proof.
  induction inputs as [|i inputs IH]; cbn [deliver]; [apply sound_ret|].
  apply sound_bind; [apply sound_deliver_one | intros _; exact IH].
Qed.

#[local] Hint Resolve sound_deliver : sound_db.

Lemma sound_request method params cb : sound I P (request method params cb).
Proof.
  destruct cb as [cb|].
  - intros s Hs. rewrite request_run. cbn zeta.
    apply sound_xferRaw. by apply I_insert, I_next.
  - unfold request, xferObject. sound_auto.
Qed.

#[local] Hint Resolve sound_request : sound_db.

Lemma sound_perform_one a : sound I P (perform_one a).
Proof.
  destruct a; cbn [perform_one];
    first [apply sound_deliver_one | apply sound_attempt].
  - apply sound_request.
  - apply sound_reply.
  - unfold expose. apply sound_modify. intros ?. apply I_methods.
Qed.

#[local] Hint Resolve sound_perform_one : sound_db.

Lemma sound_perform actions : sound I P (perform actions).
Proof.
  induction actions as [|a actions IH]; cbn [perform]; [apply sound_ret|].
  apply sound_bind; [apply sound_perform_one | intros _; exact IH].
Qed.

#[local] Hint Resolve sound_perform : sound_db.

End Sound.

(** X16.  The sequence stays a 32-bit unsigned integer through
    everything a session does: from a sequence in [0, 2^32 - 1], after
    any run of requests, replies, [expose] calls, bytes from the peer,
    method completions and emitted events, it is in that range again. *)
Theorem X16_sequence_stays_in_range (s : session) (actions : list action) :
  in_range s ->
  in_range (final (perform actions s)).
Proof.
  intros Hs.
  assert (Hsound : sound in_range (fun _ => True) (perform actions)).
  { apply sound_perform; try done.
    - intros id s0 Hs0.
      apply (op_state_in_range (OpUpdate id)); [exact I | exact Hs0].
    - intros s0 Hs0.
      apply (op_state_in_range OpNext); [exact I | exact Hs0]. }
  exact (proj1 (Hsound s Hs)).
Qed.

(** X17.  Nothing but frames goes out: in any run of the session, every
    packet written to the socket is a ten-byte header (magic 89, a type
    byte, a 32-bit id, the payload length) followed by its payload. *)
Theorem X17_every_write_is_a_frame (s : session) (actions : list action) :
  Forall well_framed (trace (perform actions s)).
Proof.
  assert (Hsound : sound (fun _ => True) well_framed (perform actions)).
  { apply sound_perform; try done.
    intros ty id payload Hty Hid. exists ty, id, payload. done. }
  exact (proj2 (Hsound s I)).
Qed.

Lemma calls_at_none id t :
  Forall (fun e => is_call_at id e = false) t -> calls_at id t = 0%nat.
Proof.
  intros Ht. unfold calls_at.
  induction Ht as [|e t He _ IH]; [reflexivity|].
  rewrite filter_cons. case_decide as Hc; [congruence | exact IH].
Qed.

(** X18.  Id 0 is never completed.  When the sequence rolls over,
    [request] stores the completion under id 0, the id of
    notifications; and a completion stored under id 0 is never called
    and never freed, whatever bytes, method completions and events reach
    the session afterwards. *)
Theorem X18_completion_at_id_0_is_lost (s : session) (method params : value)
    (cb : callback) (inputs : list input) :
  MAX_ID < sequence s + step_of s ->
  let s' := final (request method params (Some cb) s) in
  sequence s' = 0 /\
  requestCallbacks s' !! 0 = Some cb /\
  calls_at 0 (trace (deliver inputs s')) = 0%nat /\
  requestCallbacks (final (deliver inputs s')) !! 0 = Some cb.
Proof.
  intros Hover s'.
  assert (Hseq : sequence (op_state OpNext s) = 0).
  { cbn [op_state]. rewrite sequence_setter_value.
    by replace (MAX_ID <? sequence s + step_of s) with true
      by (symmetry; by apply Z.ltb_lt). }
  assert (Hs' : s' = with_requestCallbacks
                       (<[0 := cb]> (requestCallbacks (op_state OpNext s)))
                       (op_state OpNext s)).
  { subst s'. rewrite request_run. cbn zeta. rewrite Hseq.
    unfold xferObject.
    destruct (xferRaw_cases TYPE_JSON 0
                (utf8_encode (JSON_stringify
                   (if truthy params
                    then VObj [("method"%string, method);
                               ("params"%string, params)]
                    else VObj [("method"%string, method)])))
                (with_requestCallbacks
                   (<[0 := cb]> (requestCallbacks (op_state OpNext s)))
                   (op_state OpNext s)))
      as [[e ->] | (_ & _ & ->)]; reflexivity. }
  assert (H0 : requestCallbacks s' !! 0 = Some cb)
    by (rewrite Hs'; apply lookup_insert_eq).
  assert (Hsound : sound (fun s0 => requestCallbacks s0 !! 0 = Some cb)
                     (fun e => is_call_at 0 e = false) (deliver inputs)).
  { apply sound_deliver; try done.
    - intros id c e r Hid. cbn. by apply Z.eqb_neq.
    - intros id s0 Hid Hs0. unfold consume. cbn.
      by rewrite lookup_delete_ne.
    - intros id s0 Hs0. cbn [op_state].
      destruct (id =? 0); [exact Hs0|].
      by destruct (sequence s0 <? id). }
  destruct (Hsound s' H0) as [Hi Ht].
  split; [by rewrite Hs'|]. split; [exact H0|].
  split; [by apply calls_at_none | exact Hi].
Qed.

(** ** A binary reply from one end to the other *)

Lemma op_state_update_fields id s :
  requestCallbacks (op_state (OpUpdate id) s) = requestCallbacks s /\
  streams (op_state (OpUpdate id) s) = streams s.
Proof.
  cbn [op_state]. destruct (id =? 0); [done|].
  by destruct (sequence s <? id).
Qed.

(** X19.  A binary reply arrives whole.  [reply] with a non-empty
    Buffer writes a data frame and its terminator; a peer that waits at
    a frame boundary with a completion pending under the id and no
    stream open for it, and that receives the two packets in one piece,
    collects the Buffer, dispatches {result: Buffer} and calls the
    completion with (null, Buffer), once; afterwards neither the
    completion nor the stream is kept. *)
Theorem X19_binary_reply_end_to_end (s1 s2 : session) (id : Z)
    (bs : list byte) (cb : callback) :
  socket_writable s1 = true ->
  0 < id <= MAX_ID ->
  bs <> [] ->
  Z.of_nat (length bs) <= MAX_ID ->
  parser s2 = AtMagic ->
  pending s2 = [] ->
  streams s2 !! id = None ->
  requestCallbacks s2 !! id = Some cb ->
  exists p1 p2,
    reply id (VBuffer bs) s1 =
      mkRun (Ok tt) s1 [SocketWrite p1; SocketWrite p2] /\
    let r := socket_data (p1 ++ p2) s2 in
    res r = Ok tt /\
    trace r =
      [ Emit (EvBuffer id bs);
        Emit (EvBufferComplete id);
        Emit (EvMessage id (VObj [("result"%string, VBuffer bs)]));
        CallRequestCallback id cb VNull (VBuffer bs) ] /\
    requestCallbacks (final r) !! id = None /\
    streams (final r) !! id = None.
Proof.
  intros Hw Hid Hne Hlen Hp Hb Hst Hcb.
  assert (Hz : (id =? 0) = false) by (apply Z.eqb_neq; lia).
  assert (Hty : 0 <= TYPE_BUFFER_RESPONSE <= 255)
    by (unfold TYPE_BUFFER_RESPONSE; lia).
  exists (frame TYPE_BUFFER_RESPONSE id bs), (frame TYPE_BUFFER_RESPONSE id []).
  split.
  { unfold reply. rewrite Hz. unfold xferBuffer, bind.
    rewrite xferRaw_run by (assumption || lia). cbn [res final trace].
    rewrite xferRawZeroLength_as_xferRaw by (assumption || lia).
    rewrite xferRaw_run by (assumption || lia). reflexivity. }
  (* the data frame *)
  set (u := op_state (OpUpdate id) s2).
  destruct (op_state_update_fields id s2) as [Hcb_u Hst_u]. fold u in Hcb_u, Hst_u.
  pose proof (op_state_reader id s2) as Hrd. fold u in Hrd.
  unfold reader in Hrd. rewrite Hp, Hb in Hrd. injection Hrd as Hpu Hbu.
  set (sA := with_streams (<[id := [bs]]> (streams s2)) u).
  assert (H1 : socket_data (frame TYPE_BUFFER_RESPONSE id bs) s2 =
               mkRun (Ok tt) sA [Emit (EvBuffer id bs)]).
  { rewrite socket_data_frame by (assumption || lia).
    destruct bs as [|b bs']; [done|].
    unfold bind. rewrite apply_op_run_update. cbn [res final trace app].
    fold u. unfold parsePacket.
    change (TYPE_BUFFER_RESPONSE =? TYPE_JSON) with false.
    change (TYPE_BUFFER_RESPONSE =? TYPE_BUFFER_RESPONSE) with true.
    cbn iota. rewrite emit_buffer_run, Hst_u, Hst. reflexivity. }
  (* the terminator *)
  set (uA := op_state (OpUpdate id) sA).
  destruct (op_state_update_fields id sA) as [Hcb_uA Hst_uA].
  fold uA in Hcb_uA, Hst_uA.
  set (sB := with_streams (delete id (streams uA)) uA).
  assert (HcbB : requestCallbacks sB !! id = Some cb).
  { subst sB. cbn [requestCallbacks with_streams]. rewrite Hcb_uA.
    subst sA. cbn [requestCallbacks with_streams]. by rewrite Hcb_u. }
  assert (H2 : socket_data (frame TYPE_BUFFER_RESPONSE id []) sA =
               mkRun (Ok tt) (consume id sB)
                 [ Emit (EvBufferComplete id);
                   Emit (EvMessage id (VObj [("result"%string, VBuffer bs)]));
                   CallRequestCallback id cb VNull (VBuffer bs) ]).
  { rewrite socket_data_frame
      by (first [exact Hpu | exact Hbu | assumption | lia
                | (cbn; unfold MAX_ID; lia)]).
    unfold bind. rewrite apply_op_run_update. cbn [res final trace app].
    fold uA. unfold parseHeader.
    change (TYPE_BUFFER_RESPONSE =? TYPE_BUFFER_RESPONSE) with true.
    cbn iota.
    rewrite (emit_bufferComplete_present uA id [bs])
      by (rewrite Hst_uA; subst sA; cbn [streams with_streams];
          apply lookup_insert_eq).
    cbn zeta. fold sB.
    change (concat [bs]) with (bs ++ []). rewrite app_nil_r.
    rewrite onMessage_response by (lia || reflexivity).
    cbn [assoc String.eqb Ascii.eqb Bool.eqb truthy].
    rewrite callRequestCallback_run, Hz, HcbB. reflexivity. }
  cbn zeta.
  rewrite socket_data_app by (by rewrite H1).
  unfold bind. rewrite H1. cbn [res final trace]. rewrite H2.
  cbn [res final trace app].
  split; [reflexivity|]. split; [reflexivity|].
  split; [apply lookup_delete_eq|].
  unfold consume. cbn [streams with_requestCallbacks].
  subst sB. cbn [streams with_streams]. apply lookup_delete_eq.
Qed.

(** ** The HTTP helper *)

Lemma or_else_twice (a b : value) :
  truthy b = true -> or_else (or_else a b) b = or_else a b.
Proof.
  intros Hb. unfold or_else. destruct (truthy a) eqn:Ha; [by rewrite Ha|].
  by rewrite Hb.
Qed.

Lemma insert_present (m : gmap string value) k v :
  m !! k = Some v -> <[k := v]> m = m.
Proof. apply insert_id. Qed.

(** The options and the request for a body that is ready to be
    written. *)
Lemma httpRequest_plain (d : options) (headers : gmap string value) :
  typeof_object (o_body d) = false ->
  headers = <["host"%string := o_host d]> (default ∅ (o_headers d)) ->
  exists headers',
    headers' =
      (if truthy (o_body d)
       then match get_prop (o_body d) "length" with
            | Ok len => <["content-length"%string := len]> headers
            | Throw _ => headers
            end
       else headers) /\
    httpRequest d =
      Ok (mkOptions (o_host d) (o_port d) (o_path d) (o_secure d)
            (or_else (o_method d) (VStr "GET")) (Some headers') (o_body d),
          mkClientRequest
            (or_else (o_port d)
               (if truthy (o_secure d) then VNum 443 else VNum 80))
            (o_host d) (o_secure d) (or_else (o_method d) (VStr "GET"))
            (o_path d) headers' (o_body d)).
Proof.
  intros Hty ->. eexists. split; [reflexivity|].
  unfold httpRequest. rewrite Hty.
  destruct (o_body d) as [| |b|n|str| | | |]; try discriminate Hty;
    cbn [truthy get_prop]; try reflexivity.
  - by destruct b.
  - by destruct (negb (n =? 0)).
  - by destruct (negb (String.eqb str EmptyString)).
Qed.

Lemma httpRequest_twice (d : options) :
  exists d' q,
    httpRequest d = Ok (d', q) /\ httpRequest d' = Ok (d', q).
Proof.
  set (h := <["host"%string := o_host d]> (default ∅ (o_headers d))).
  assert (Hhost : h !! "host"%string = Some (o_host d))
    by apply lookup_insert_eq.
  assert (Hget : forall d0 hs, typeof_object (o_body d0) = false ->
            hs !! "host"%string = Some (o_host d0) ->
            o_headers d0 = Some hs ->
            (truthy (o_body d0) = true ->
             exists len, get_prop (o_body d0) "length" = Ok len /\
                         hs !! "content-length"%string = Some len) ->
            truthy (o_method d0) = true ->
            httpRequest d0 =
              Ok (d0,
                  mkClientRequest
                    (or_else (o_port d0)
                       (if truthy (o_secure d0) then VNum 443 else VNum 80))
                    (o_host d0) (o_secure d0) (o_method d0) (o_path d0)
                    hs (o_body d0))).
  { intros d0 hs Hty Hh Hhs Hlen Hm.
    destruct (httpRequest_plain d0 _ Hty eq_refl) as (hs' & Hhs' & ->).
    rewrite Hhs in Hhs'. change (default ∅ (Some hs)) with hs in Hhs'.
    rewrite (insert_present _ _ _ Hh) in Hhs'.
    assert (hs' = hs) as ->.
    { rewrite Hhs'. destruct (truthy (o_body d0)); [|reflexivity].
      destruct (Hlen eq_refl) as (len & -> & Hl).
      by apply insert_present. }
    assert (Hor : or_else (o_method d0) (VStr "GET") = o_method d0)
      by (unfold or_else; by rewrite Hm).
    rewrite Hor. rewrite <- Hhs. by destruct d0. }
  assert (Hm : truthy (or_else (o_method d) (VStr "GET")) = true)
    by (unfold or_else; by destruct (truthy (o_method d)) eqn:E).
  pose (mk := fun hs body =>
          (mkOptions (o_host d) (o_port d) (o_path d) (o_secure d)
             (or_else (o_method d) (VStr "GET")) (Some hs) body,
           mkClientRequest
             (or_else (o_port d)
                (if truthy (o_secure d) then VNum 443 else VNum 80))
             (o_host d) (o_secure d) (or_else (o_method d) (VStr "GET"))
             (o_path d) hs body)).
  assert (Hagain : forall hs body,
            typeof_object body = false ->
            hs !! "host"%string = Some (o_host d) ->
            (truthy body = true ->
             exists len, get_prop body "length" = Ok len /\
                         hs !! "content-length"%string = Some len) ->
            httpRequest (fst (mk hs body)) = Ok (mk hs body)).
  { intros hs body Hb Hh Hl. exact (Hget (fst (mk hs body)) hs Hb Hh eq_refl Hl Hm). }
  destruct (typeof_object (o_body d)) eqn:Hty.
  - (* the body is stringified *)
    set (text := JSON_stringify (o_body d)).
    set (h2 := <["content-type"%string := VStr "application/json"]> h).
    destruct (truthy (VStr text)) eqn:Htext.
    + exists (fst (mk (<["content-length"%string :=
                          VNum (Z.of_nat (String.length text))]> h2)
                      (VStr text))),
             (snd (mk (<["content-length"%string :=
                          VNum (Z.of_nat (String.length text))]> h2)
                      (VStr text))).
      split.
      * unfold httpRequest. rewrite Hty. fold text. rewrite Htext.
        reflexivity.
      * rewrite Hagain; [reflexivity | reflexivity | |].
        -- unfold h2. rewrite !lookup_insert_ne by done. exact Hhost.
        -- intros _. eexists. split; [reflexivity|]. apply lookup_insert_eq.
    + exists (fst (mk h2 (VStr text))), (snd (mk h2 (VStr text))).
      split.
      * unfold httpRequest. rewrite Hty. fold text. rewrite Htext.
        reflexivity.
      * rewrite Hagain; [reflexivity | reflexivity | |].
        -- unfold h2. rewrite !lookup_insert_ne by done. exact Hhost.
        -- intros Ht. rewrite Htext in Ht. discriminate.
  - destruct (httpRequest_plain d h Hty eq_refl) as (hs' & Hhs' & Hrun).
    exists (fst (mk hs' (o_body d))), (snd (mk hs' (o_body d))).
    split; [exact Hrun|].
    rewrite Hagain; [reflexivity | exact Hty | |].
    + rewrite Hhs'. destruct (truthy (o_body d)); [|exact Hhost].
      destruct (get_prop (o_body d) "length"); [|exact Hhost].
      by rewrite lookup_insert_ne.
    + intros Ht. rewrite Hhs', Ht.
      destruct (o_body d); try discriminate Ht; try discriminate Hty;
        cbn [get_prop]; eexists; (split; [reflexivity|]);
        apply lookup_insert_eq.
Qed.

(** X20.  The options object that [httpRequest] has completed in place
    can be used again: when a call returns, a second call with the same
    object makes the same calls on the client (same port, host, method,
    path, headers and written body) and leaves the object as it is. *)
Theorem X20_options_can_be_reused (d d' : options) (q : client_request) :
  httpRequest d = Ok (d', q) ->
  httpRequest d' = Ok (d', q).
Proof.
  intros E. destruct (httpRequest_twice d) as (d1 & q1 & E1 & E2).
  rewrite E1 in E. by injection E as <- <-.
Qed.

(** X21.  The request [httpRequest] makes: the [host] header is the
    options' host, whatever the caller put there; every header of the
    caller other than host, content-type and content-length is passed
    on; an object body (null and arrays included) is written as its JSON
    text with content-type application/json, any other body as it is;
    and whenever a non-empty string is written, content-length is its
    length in characters. *)
Theorem X21_request_headers (d : options) :
  match httpRequest d with
  | Throw _ => False
  | Ok (d', q) =>
      q_headers q !! "host"%string = Some (o_host d) /\
      (forall k : string,
         k <> "host"%string -> k <> "content-type"%string ->
         k <> "content-length"%string ->
         q_headers q !! k = default ∅ (o_headers d) !! k) /\
      (if typeof_object (o_body d)
       then q_headers q !! "content-type"%string
              = Some (VStr "application/json") /\
            q_written q = VStr (JSON_stringify (o_body d))
       else q_written q = o_body d) /\
      match q_written q with
      | VStr text =>
          text <> EmptyString ->
          q_headers q !! "content-length"%string
            = Some (VNum (Z.of_nat (String.length text)))
      | _ => True
      end /\
      o_headers d' = Some (q_headers q) /\
      o_body d' = q_written q
  end.
Proof.
  set (h := <["host"%string := o_host d]> (default ∅ (o_headers d))).
  assert (Hhost : h !! "host"%string = Some (o_host d))
    by apply lookup_insert_eq.
  assert (Hother : forall k : string, k <> "host"%string ->
            h !! k = default ∅ (o_headers d) !! k)
    by (intros k Hk; unfold h; by rewrite lookup_insert_ne).
  assert (Hstr : forall text : string, text <> EmptyString ->
            truthy (VStr text) = true).
  { intros text Hne. cbn. apply negb_true_iff. by apply String.eqb_neq. }
  destruct (typeof_object (o_body d)) eqn:Hty.
  - set (text := JSON_stringify (o_body d)).
    unfold httpRequest. rewrite Hty. fold text h.
    destruct (truthy (VStr text)) eqn:Htext;
      cbn [get_prop String.eqb Ascii.eqb Bool.eqb q_headers q_written
             o_headers o_body].
    + repeat split.
      * by rewrite !lookup_insert_ne.
      * intros k H1 H2 H3. rewrite !lookup_insert_ne by done. by apply Hother.
      * rewrite lookup_insert_ne by done. apply lookup_insert_eq.
      * intros _. apply lookup_insert_eq.
    + repeat split.
      * by rewrite !lookup_insert_ne.
      * intros k H1 H2 H3. rewrite !lookup_insert_ne by done. by apply Hother.
      * apply lookup_insert_eq.
      * intros Hne. rewrite (Hstr text Hne) in Htext. discriminate.
  - destruct (httpRequest_plain d h Hty eq_refl) as (hs' & Hhs' & ->).
    cbn [q_headers q_written o_headers o_body].
    split; [|split; [|split; [reflexivity|split; [|by split]]]].
    + rewrite Hhs'. destruct (truthy (o_body d)); [|exact Hhost].
      destruct (get_prop (o_body d) "length"); [|exact Hhost].
      by rewrite lookup_insert_ne.
    + intros k H1 H2 H3. rewrite Hhs'.
      destruct (truthy (o_body d)); [|by apply Hother].
      destruct (get_prop (o_body d) "length"); [|by apply Hother].
      rewrite lookup_insert_ne by done. by apply Hother.
    + destruct (o_body d) as [| |b|n|text| | | |] eqn:Hbody; try exact I.
      intros Hne. rewrite Hhs', (Hstr text Hne).
      cbn [get_prop String.eqb Ascii.eqb Bool.eqb]. apply lookup_insert_eq.
Qed.

Lemma append_assoc (a b c : string) :
  ((a ++ b) ++ c = a ++ (b ++ c))%string.
Proof.
  induction a as [|x a IH]; [reflexivity|].
  change (String x ((a ++ b) ++ c) = String x (a ++ (b ++ c)))%string.
  by rewrite IH.
Qed.

Lemma append_empty_r (a : string) : (a ++ EmptyString)%string = a.
Proof.
  induction a as [|x a IH]; [reflexivity|].
  change (String x (a ++ EmptyString) = String x a)%string.
  by rewrite IH.
Qed.

Lemma fold_append chunks : forall acc,
  fold_left String.append chunks acc
    = (acc ++ String.concat EmptyString chunks)%string.
Proof.
  induction chunks as [|c chunks IH]; intros acc.
  - cbn. by rewrite append_empty_r.
  - cbn [fold_left]. rewrite IH.
    destruct chunks as [|c' chunks].
    + cbn. by rewrite append_empty_r.
    + change (String.concat EmptyString (c :: c' :: chunks))
        with (c ++ String.concat EmptyString (c' :: chunks))%string.
      apply append_assoc.
Qed.

(** X22.  The body handed to the [response] event depends only on the
    text of the response, not on how it came in chunks: it is the chunks
    joined in order, and it is parsed as JSON exactly when the
    content-type header is the string application/json (a header with a
    charset parameter leaves the text as it is); [JSON.parse] then
    throws for a text that is not JSON. *)
Theorem X22_response_body (headers : gmap string string)
    (chunks : list string) :
  let text := String.concat EmptyString chunks in
  response_data headers chunks = response_data headers [text] /\
  response_data headers chunks =
    if decide (headers !! "content-type"%string
               = Some "application/json"%string)
    then match JSON_parse text with
         | Some v => Delivered v
         | None => ParseThrows
         end
    else Delivered (VStr text).
Proof.
  intros text.
  assert (Hjoin : fold_left String.append chunks EmptyString = text)
    by (rewrite fold_append; reflexivity).
  assert (Hone : fold_left String.append [text] EmptyString = text)
    by reflexivity.
  unfold response_data. rewrite Hjoin, Hone. split; [reflexivity|].
  destruct (headers !! "content-type"%string) as [ct|].
  - destruct (String.eqb_spec ct "application/json") as [-> | Hne].
    + by rewrite decide_True.
    + rewrite decide_False; [reflexivity | congruence].
  - by rewrite decide_False.
Qed.

End FurtherProperties.

(** ** The further theorems at concrete inputs *)

Lemma X3_witness :
  exists packet,
    xferRaw TYPE_JSON 6 [x7b; x7d] (fresh true) =
      mkRun (Ok tt) (fresh true) [SocketWrite packet] /\
    length packet = (10 + length [x7b; x7d])%nat /\
    word_be (take 1 packet) = MAGIC /\
    word_be (take 1 (drop 1 packet)) = TYPE_JSON /\
    word_be (take 4 (drop 2 packet)) = 6 /\
    word_be (take 4 (drop 6 packet)) = Z.of_nat (length [x7b; x7d]) /\
    drop 10 packet = [x7b; x7d] /\
    xferRawZeroLength TYPE_JSON 6 (fresh true) =
      xferRaw TYPE_JSON 6 [] (fresh true).
Proof.
  apply (X3_header_layout (fresh true) TYPE_JSON 6 [x7b; x7d]).
  - reflexivity.
  - unfold TYPE_JSON. lia.
  - unfold MAX_ID. lia.
  - unfold MAX_ID. simpl. lia.
Defined.

Lemma X4_witness :
  let r := request (VStr "ping") VUndefined (Some 7%nat) unwritable in
  let id :=
    sequence (sequence_setter (sequence unwritable + step_of unwritable)
                unwritable) in
  res r = Throw (AssertionError "Socket not writable.") /\
  trace r = [] /\
  sequence (final r) = id /\
  requestCallbacks (final r) !! id = Some 7%nat.
Proof.
  apply (X4_request_on_closed_socket unwritable (VStr "ping") VUndefined
           7%nat).
  reflexivity.
Defined.

Lemma X5_witness :
  request (VStr "ping") VUndefined None (fresh true) =
    mkRun (Ok tt) (fresh true)
      [SocketWrite
         (frame TYPE_JSON 0
            (utf8_encode
               (JSON_stringify
                  (if truthy VUndefined
                   then VObj [("method"%string, VStr "ping");
                              ("params"%string, VUndefined)]
                   else VObj [("method"%string, VStr "ping")]))))].
Proof.
  apply (X5_notification (fresh true) (VStr "ping") VUndefined).
  reflexivity.
Defined.

Lemma X6_witness :
  let id := sequence (fresh true) + step_of (fresh true) in
  let r := request (VStr "ping") VUndefined (Some 7%nat) (fresh true) in
  res r = Ok tt /\
  (exists payload, trace r = [SocketWrite (frame TYPE_JSON id payload)]) /\
  requestCallbacks (final r) !! id = Some 7%nat /\
  onMessage id (VObj [("result"%string, VNum 3)]) (final r) =
    mkRun (Ok tt) (consume id (final r))
      [CallRequestCallback id 7%nat VNull
         (assoc "result" [("result"%string, VNum 3)])] /\
  requestCallbacks (consume id (final r)) !! id = None.
Proof.
  apply (X6_request_then_reply (fresh true) (VStr "ping") VUndefined 7%nat
           [("result"%string, VNum 3)]).
  - reflexivity.
  - vm_compute. discriminate.
  - vm_compute. discriminate.
  - reflexivity.
  - reflexivity.
  - reflexivity.
Defined.

Lemma X7_witness :
  let s' := final (expose "add" 3%nat (fresh false)) in
  onMessage 4
      (VObj [("method"%string, VStr "add"); ("params"%string, VArr [VNum 1])])
      s' =
    mkRun (Ok tt) s'
      [CallMethod 3%nat
         (if truthy (assoc "params"
                       [("method"%string, VStr "add");
                        ("params"%string, VArr [VNum 1])])
          then assoc "params"
                 [("method"%string, VStr "add");
                  ("params"%string, VArr [VNum 1])]
          else VArr [])
         4].
Proof.
  apply (X7_exposed_method_is_called (fresh false) "add" 3%nat 4
           [("method"%string, VStr "add"); ("params"%string, VArr [VNum 1])]).
  - reflexivity.
  - discriminate.
Defined.

Lemma X8_witness :
  onMessage 7 (VObj [("method"%string, VStr "nope")]) (fresh false) =
    mkRun (Ok tt) (fresh false)
      (Emit (EvFail 7 ERROR_METHOD
               (VStr ("Method " ++ "nope" ++ " not found.")))
       :: if 7 =? 0 then []
          else [SocketWrite
                  (frame TYPE_JSON 7
                     (utf8_encode
                        (JSON_stringify
                           (VObj [("error"%string,
                                   VObj [("code"%string, VNum ERROR_METHOD);
                                         ("message"%string,
                                          VStr ("Method " ++ "nope"
                                                ++ " not found."))])]))))]).
Proof.
  apply (X8_unknown_method (fresh false) "nope" 7
           [("method"%string, VStr "nope")]).
  - reflexivity.
  - discriminate.
  - apply lookup_empty.
  - reflexivity.
  - reflexivity.
  - unfold MAX_ID. lia.
Defined.

Lemma X9_witness :
  onComplete 5 VNull (VBuffer [xde; xad]) (fresh true) =
    mkRun (Ok tt) (fresh true)
      (if truthy VNull then
         Emit (EvFail 5 ERROR_USER VNull)
         :: if 5 =? 0 then []
            else [SocketWrite
                    (frame TYPE_JSON 5
                       (utf8_encode
                          (JSON_stringify
                             (VObj [("error"%string,
                                     VObj [("code"%string, VNum ERROR_USER);
                                           ("message"%string, VNull)])]))))]
       else if 5 =? 0 then []
       else match VBuffer [xde; xad] with
            | VBuffer bs =>
                [SocketWrite (frame TYPE_BUFFER_RESPONSE 5 bs);
                 SocketWrite (frame TYPE_BUFFER_RESPONSE 5 [])]
            | _ =>
                [SocketWrite
                   (frame TYPE_JSON 5
                      (utf8_encode
                         (JSON_stringify
                            (VObj [("result"%string,
                                    VBuffer [xde; xad])]))))]
            end).
Proof.
  apply (X9_done_answers_once (fresh true) 5 VNull (VBuffer [xde; xad])).
  - reflexivity.
  - unfold MAX_ID. lia.
  - unfold MAX_ID. simpl. lia.
Defined.

Lemma X11_witness :
  let message :=
    VObj [("result"%string,
           VBuffer (concat (chunks_for 9 [(9, [xde]); (4, [xbe]); (9, [xad])])))]
  in
  let r :=
    (emit_buffer_events [(9, [xde]); (4, [xbe]); (9, [xad])] ;;;
     emit_bufferComplete 9) (fresh true) in
  (exists rest,
     trace r =
       map (fun ev => Emit (EvBuffer (fst ev) (snd ev)))
         [(9, [xde]); (4, [xbe]); (9, [xad])]
       ++ Emit (EvBufferComplete 9) :: Emit (EvMessage 9 message) :: rest) /\
  messages_in (trace r) = 1%nat /\
  streams (final r) !! 9 = None /\
  forall id', id' <> 9 ->
    streams (final r) !! id' =
      match chunks_for id' [(9, [xde]); (4, [xbe]); (9, [xad])] with
      | [] => streams (fresh true) !! id'
      | chunks => Some (default [] (streams (fresh true) !! id') ++ chunks)
      end.
Proof.
  apply (X11_interleaved_streams (fresh true) 9
           [(9, [xde]); (4, [xbe]); (9, [xad])]).
  - apply lookup_empty.
  - vm_compute. discriminate.
Defined.

Lemma X12_witness :
  socket_data (frame 2 9 [xde]) (fresh false) =
    (updateSequence 9 ;;;
     match [xde] with
     | [] =>
         if 2 =? TYPE_BUFFER_RESPONSE then emit_bufferComplete 9
         else if 2 =? TYPE_HANDSHAKE then tell (Emit EvReady)
         else emit_fail 9 ERROR_INVALID (VStr "Unexpected 0-length header.")
     | _ :: _ =>
         if 2 =? TYPE_JSON then emit_incomingJSON 9 (utf8_decode [xde])
         else if 2 =? TYPE_BUFFER_RESPONSE then emit_buffer 9 [xde]
         else emit_fail 9 ERROR_INVALID (VStr "Unknown packet type.")
     end) (fresh false).
Proof.
  apply (X12_frame_dispatch (fresh false) 2 9 [xde]).
  - reflexivity.
  - reflexivity.
  - lia.
  - unfold MAX_ID. lia.
  - unfold MAX_ID. simpl. lia.
Defined.

Lemma X13_witness :
  BlizzardSession ∅ true true =
    mkRun (Ok tt) (mkSession true 0 ∅ ∅ ∅ true AtMagic [] false)
      [SocketWrite (frame TYPE_HANDSHAKE 0 [])] /\
  BlizzardSession ∅ false false =
    mkRun (Ok tt) (mkSession false 0 ∅ ∅ ∅ false AtMagic [] false) [] /\
  socket_data (frame TYPE_HANDSHAKE 0 []) (fresh false) =
    mkRun (Ok tt) (fresh false) [Emit EvReady].
Proof.
  apply (X13_handshake ∅ false (fresh false)).
  - reflexivity.
  - reflexivity.
Defined.


Lemma X15_witness :
  socket_data ([x59; x03; x00] ++ [x00; x00; x09; x00; x00; x00; x01; xde])
      (fresh false) =
    (socket_data [x59; x03; x00] ;;;
     socket_data [x00; x00; x09; x00; x00; x00; x01; xde]) (fresh false).
Proof.
  apply (X15_chunking (fresh false) [x59; x03; x00]
           [x00; x00; x09; x00; x00; x00; x01; xde]).
  - vm_compute. reflexivity.
  - vm_compute. reflexivity.
Defined.

Lemma X16_witness :
  in_range
    (final
       (perform
          [ActRequest (VStr "ping") VUndefined (Some 7%nat);
           ActInput (InSocketData [x59; x03; x00]);
           ActReply 4 (VBuffer [xde])]
          at_rollover)).
Proof.
  apply (X16_sequence_stays_in_range at_rollover
           [ActRequest (VStr "ping") VUndefined (Some 7%nat);
            ActInput (InSocketData [x59; x03; x00]);
            ActReply 4 (VBuffer [xde])]).
  vm_compute. split; discriminate.
Defined.

Lemma X18_witness :
  let s' := final (request (VStr "ping") VUndefined (Some 7%nat) at_rollover) in
  sequence s' = 0 /\
  requestCallbacks s' !! 0 = Some 7%nat /\
  calls_at 0
    (trace
       (deliver
          [InEmit (EvMessage 0 (VObj [("result"%string, VNum 3)]));
           InDone 0 VNull VNull]
          s')) = 0%nat /\
  requestCallbacks
    (final
       (deliver
          [InEmit (EvMessage 0 (VObj [("result"%string, VNum 3)]));
           InDone 0 VNull VNull]
          s')) !! 0 = Some 7%nat.
Proof.
  apply (X18_completion_at_id_0_is_lost at_rollover (VStr "ping") VUndefined
           7%nat
           [InEmit (EvMessage 0 (VObj [("result"%string, VNum 3)]));
            InDone 0 VNull VNull]).
  vm_compute. reflexivity.
Defined.

Lemma X19_witness :
  exists p1 p2,
    reply 2 (VBuffer [xde; xad]) (fresh false) =
      mkRun (Ok tt) (fresh false) [SocketWrite p1; SocketWrite p2] /\
    let r := socket_data (p1 ++ p2) (pending_request 2 7%nat) in
    res r = Ok tt /\
    trace r =
      [ Emit (EvBuffer 2 [xde; xad]);
        Emit (EvBufferComplete 2);
        Emit (EvMessage 2 (VObj [("result"%string, VBuffer [xde; xad])]));
        CallRequestCallback 2 7%nat VNull (VBuffer [xde; xad]) ] /\
    requestCallbacks (final r) !! 2 = None /\
    streams (final r) !! 2 = None.
Proof.
  apply (X19_binary_reply_end_to_end (fresh false) (pending_request 2 7%nat)
           2 [xde; xad] 7%nat).
  - reflexivity.
  - unfold MAX_ID. lia.
  - discriminate.
  - unfold MAX_ID. simpl. lia.
  - reflexivity.
  - reflexivity.
  - apply lookup_empty.
  - vm_compute. reflexivity.
Defined.

Lemma X20_witness :
  httpRequest completed_options = Ok (completed_options, example_request).
Proof.
  apply (X20_options_can_be_reused example_options completed_options
           example_request).
  vm_compute. reflexivity.
Defined.
